(** * ocis-overlay: the node registry, the in-memory xattr store and the
      Node / Handle methods of package [overlay]

    A shallow embedding of [overlay/filesystem.go], [overlay/node.go],
    [overlay/handle.go] and [overlay/util.go].

    - Go pointers ([*Node], [*Handle]) are addresses into two stores kept in
      the program state, so that the aliasing between the registry
      [FS.nodes] and the references held by the protocol layer is explicit.
    - The underlying file system, the clock and the Go standard library
      calls are an interface ([Underlying]); every method threads the
      state of that outside world.
    - Calls are taken one at a time: a method is a function on the state,
      and the locks ([nlock], [xlock], [rpLock], [lock]), which order
      concurrent calls, do not appear.  Logging and [time.Sleep] have no
      effect on the state and are left out, but for one thing: the
      deferred logs of the [Handle] methods call [h.f.Name()], which
      panics when the Handle holds the [nil] file ([logName]). *)

From Stdlib Require Import ZArith String Ascii List Lia Permutation.
From Stdlib Require Import Strings.Byte.
From stdpp Require Import base option list functions gmap strings sorting.

Set Default Proof Using "Type".

(** ** Errors *)

(** How the [os] package classifies an error of the underlying file system
    ([os.IsNotExist], [os.IsExist], [os.IsPermission]). *)
Inductive OsErrorKind := NotExist | Exist | Permission | OtherKind.

(** Go [error] values met in the package: the [fuse.Errno] constants it
    returns, and errors of the underlying file system (kind and errno). *)
Inductive error :=
| ENOENT | EEXIST | EPERM | ENOTSUP | ENODATA | EIO
| OsError (kind : OsErrorKind) (errno : Z).

Global Instance OsErrorKind_eq_dec : EqDecision OsErrorKind.
Proof. solve_decision. Defined.
Global Instance error_eq_dec : EqDecision error.
Proof. solve_decision. Defined.

(** [translateError] on an error that is not [nil]. *)
Definition translate (err : error) : error :=
  match err with
  | OsError NotExist _ => ENOENT
  | OsError Exist _ => EEXIST
  | OsError Permission _ => EPERM
  | _ => err
  end.

(** [translateError]; [None] is the [nil] error, which falls to the
    [default] case. *)
Definition translateError (err : option error) : option error :=
  translate <$> err.

(** A Go function that may panic. *)
Inductive outcome (A : Type) :=
| Panicked (msg : string)
| Returned (a : A).
Arguments Panicked {A} msg.
Arguments Returned {A} a.

(** The run-time panic of a method called through a [nil] pointer that
    reads a field of its receiver. *)
Definition nilDereference : string :=
  "runtime error: invalid memory address or nil pointer dereference".

(** ** File modes ([os.FileMode], a [uint32]) *)

Definition uint32 (z : Z) : Z := z mod 2 ^ 32.

Definition ModeDir : Z := 2 ^ 31.
Definition ModeSymlink : Z := 2 ^ 27.
Definition ModeDevice : Z := 2 ^ 26.
Definition ModeNamedPipe : Z := 2 ^ 25.
Definition ModeSocket : Z := 2 ^ 24.
Definition ModeCharDevice : Z := 2 ^ 21.
Definition ModeIrregular : Z := 2 ^ 19.
Definition ModeType : Z :=
  Eval cbv in
    Z.lor ModeDir (Z.lor ModeSymlink (Z.lor ModeNamedPipe (Z.lor ModeSocket
      (Z.lor ModeDevice (Z.lor ModeCharDevice ModeIrregular))))).

Definition FileMode_IsDir (m : Z) : bool := negb (Z.land m ModeDir =? 0)%Z.
Definition FileMode_IsRegular (m : Z) : bool := (Z.land m ModeType =? 0)%Z.

(** [os.FileInfo] together with the [syscall.Stat_t] behind [fi.Sys()];
    times are nanoseconds since the epoch. *)
Record FileInfo := mkFileInfo {
  fi_Name : string;
  fi_Size : Z;
  fi_Mode : Z;
  fi_ModTime : Z;
  fi_Ino : Z;
  fi_Uid : Z;
  fi_Gid : Z;
}.

Definition FileInfo_IsDir (fi : FileInfo) : bool := FileMode_IsDir (fi_Mode fi).

(** ** Requests of the protocol layer *)

Definition SetattrMode : Z := 1.
Definition SetattrUid : Z := 2.
Definition SetattrGid : Z := 4.
Definition SetattrSize : Z := 8.
Definition SetattrAtime : Z := 16.
Definition SetattrMtime : Z := 32.
Definition SetattrHandle : Z := 64.

Record SetattrRequest := mkSetattrRequest {
  sa_Valid : Z;
  sa_Size : Z;
  sa_Atime : Z;
  sa_Mtime : Z;
  sa_Mode : Z;
  sa_Uid : Z;
  sa_Gid : Z;
}.

Definition valid (flag : Z) (req : SetattrRequest) : bool :=
  negb (Z.land (sa_Valid req) flag =? 0)%Z.

Record RenameRequest := mkRenameRequest {
  rn_OldName : string;
  rn_NewName : string;
}.

(** [Position] and [Size] are [uint32]; [int(...)] of them is exact. *)
Record ListxattrRequest := mkListxattrRequest {
  lx_Size : N;
  lx_Position : N;
}.

Inductive DirentType := DT_Dir | DT_File.

Record Dirent := mkDirent {
  de_Inode : Z;
  de_Name : string;
  de_Type : DirentType;
}.

(** ** The outside world *)

(** What the package consumes: the underlying file system, the clock, and
    the helpers of the platform files ([tToTv], [fillAttrWithFileInfo],
    [setattrPlatformSpecific]), which are taken as given.  Calls that can
    change the file system return the new world.  A [File] is a [*os.File],
    [nilFile] the [nil] pointer: pointers can be compared, and
    [os.OpenFile] returns a file that is not [nil] when it returns no
    error. *)
Class Underlying := {
  World : Type;
  File : Type;
  nilFile : File;
  File_eq_dec :: EqDecision File;
  Attr : Type;
  Timeval : Type;
  filepath_Join : string → string → string;
  time_Now : World → Z;
  os_Stat : string → World → error + FileInfo;
  os_Rename : string → string → World → option error * World;
  os_Remove : string → World → option error * World;
  os_Mkdir : string → Z → World → option error * World;
  os_Chmod : string → Z → World → option error * World;
  os_Chown : string → Z → Z → World → option error * World;
  syscall_Truncate : string → Z → World → option error * World;
  os_OpenFile : string → Z → Z → World → (error + File) * World;
  File_Sync : File → World → option error * World;
  File_Close : File → World → option error * World;
  File_Readdir : File → World → (list FileInfo * option error) * World;
  tToTv : Z → Timeval;
  fillAttrWithFileInfo : Attr → FileInfo → Attr;
  setattrPlatformSpecific :
    string → SetattrRequest → World → option error * World;
  os_OpenFile_not_nil : ∀ name flag perm w f w',
    os_OpenFile name flag perm w = (inr f, w') → f ≠ nilFile;
}.

(** [q] lies strictly below directory [p]: [q = p/rest] with [rest]
    non-empty. *)
Definition strictDescendant (p q : string) : bool :=
  String.prefix (p +:+ "/") q && (String.length p + 1 <? String.length q)%nat.

(** ** Program state *)

Abbreviation NodePtr := nat.
Abbreviation HandlePtr := nat.

(** How a Handle re-opens its file: [Node.Open] captures the Node (and reads
    its path again on every call), [Node.Create] captures the path. *)
Inductive reopener :=
| ReopenNode (n : NodePtr) (flags perm : Z)
| ReopenName (name : string) (flags perm : Z).

Section Overlay.
Context `{U : Underlying}.

(** [Handle]; [h_forgetter] is the Node whose [forgetHandle] the closure
    calls, [None] for a [nil] forgetter. *)
Record Handle := mkHandle {
  h_reopener : reopener;
  h_forgetter : option NodePtr;
  h_f : File;
}.

(** [Node]; [flushers] may be the [nil] map. The [fs] back-reference is the
    single [FS] of the state. *)
Record Node := mkNode {
  realPath : string;
  isDir : bool;
  flushers : option (gmap HandlePtr bool);
}.

(** [FS]. An entry of [xattrs] may hold the [nil] map ([Some None]); a
    bucket of [nodes] is a slice of Node pointers.  [inMemoryXattr] is the
    field the xattr methods of [Node] read. *)
Record FS := mkFS {
  rootPath : string;
  xattrs : gmap string (option (gmap string (list byte)));
  nodes : gmap string (list NodePtr);
  latency : Z;
  inMemoryXattr : bool;
}.

(** The [FS], the two stores with their allocation pointers, and the
    outside world. *)
Record State := mkState {
  fs : FS;
  nstore : NodePtr → Node;
  nnext : NodePtr;
  hstore : HandlePtr → Handle;
  hnext : HandlePtr;
  world : World;
}.

Definition set_fs (f : FS → FS) (st : State) : State :=
  mkState (f (fs st)) (nstore st) (nnext st) (hstore st) (hnext st) (world st).
Definition set_nstore (f : (NodePtr → Node) → NodePtr → Node) (st : State) : State :=
  mkState (fs st) (f (nstore st)) (nnext st) (hstore st) (hnext st) (world st).
Definition set_world (w : World) (st : State) : State :=
  mkState (fs st) (nstore st) (nnext st) (hstore st) (hnext st) w.
Definition set_nodes (ns : gmap string (list NodePtr)) (f : FS) : FS :=
  mkFS (rootPath f) (xattrs f) ns (latency f) (inMemoryXattr f).
Definition set_xattrs (xs : gmap string (option (gmap string (list byte)))) (f : FS) : FS :=
  mkFS (rootPath f) xs (nodes f) (latency f) (inMemoryXattr f).

(** ** filesystem.go *)

(** [NewFS]: the composite literal names [rootPath], [xattrs], [nodes] and
    [latency]; a field it does not name holds its zero value. *)
Definition NewFS (latency : Z) : FS :=
  {| rootPath := ".";
     xattrs := ∅;
     nodes := ∅;
     latency := latency;
     inMemoryXattr := false |}.

Definition zeroNode : Node := mkNode EmptyString false None.

(** [&Node{realPath: p, isDir: d, fs: f}]: a fresh address. *)
Definition allocNode (nd : Node) (st : State) : NodePtr * State :=
  (nnext st,
   mkState (fs st) (<[nnext st := nd]> (nstore st)) (S (nnext st))
           (hstore st) (hnext st) (world st)).

Definition getRealPath (n : NodePtr) (st : State) : string :=
  realPath (nstore st n).

Definition updateRealPath (n : NodePtr) (rp : string) (st : State) : State :=
  set_nstore (λ s, <[n := mkNode rp (isDir (s n)) (flushers (s n))]> s) st.

(** [f.nodes[p]], the [nil] slice when the key is absent. *)
Definition bucket (ns : gmap string (list NodePtr)) (p : string) : list NodePtr :=
  default [] (ns !! p).

Definition newNode (n : NodePtr) (st : State) : State :=
  let rp := getRealPath n st in
  set_fs (λ f, set_nodes (<[rp := bucket (nodes f) rp ++ [n]]> (nodes f)) f) st.

Definition nodeRenamed (oldPath newPath : string) (st : State) : State :=
  let ns := nodes (fs st) in
  let ns := <[newPath := bucket ns newPath ++ bucket ns oldPath]> ns in
  let ns := delete oldPath ns in
  foldl (λ st n, updateRealPath n newPath st)
        (set_fs (set_nodes ns) st) (bucket ns newPath).

(** The search loop of [forgetNode]: index of the first occurrence counted
    from [i], [-1] when there is none. *)
Fixpoint findNode (n : NodePtr) (l : list NodePtr) (i : Z) : Z :=
  match l with
  | [] => (-1)%Z
  | node :: l => if decide (node = n) then i else findNode n l (i + 1)%Z
  end.

Definition forgetNode (n : NodePtr) (st : State) : State :=
  let rp := realPath (nstore st n) in
  match nodes (fs st) !! rp with
  | None => st
  | Some nodes0 =>
    let found := findNode n nodes0 0 in
    let nodes1 :=
      if (-1 <? found)%Z
      then take (Z.to_nat found) nodes0 ++ drop (Z.to_nat (found + 1)) nodes0
      else nodes0 in
    if (length nodes1 =? 0)%nat
    then set_fs (λ f, set_nodes (delete rp (nodes f)) f) st
    else set_fs (λ f, set_nodes (<[rp := nodes1]> (nodes f)) f) st
  end.

(** [FS.Root] *)
Definition Root (st : State) : NodePtr * State :=
  let '(nn, st) := allocNode (mkNode (rootPath (fs st)) true None) st in
  (nn, newNode nn st).

(** [f.xattrs[p]]: [None] is the [nil] map, also for an absent key. *)
Definition xattrsAt (p : string) (f : FS) : option (gmap string (list byte)) :=
  default None (xattrs f !! p).

(** [moveAllxattrs]. The inner map is moved by reference; as the entry of
    [from] is set to [nil] in the same call, no second reference to it
    stays in the store. *)
Definition moveAllxattrs (from to : string) (st : State) : State :=
  match xattrsAt from (fs st) with
  | Some x =>
    set_fs (λ f,
      let xs := if decide (to ≠ EmptyString) then <[to := Some x]> (xattrs f) else xattrs f in
      set_xattrs (<[from := None]> xs) f) st
  | None => st
  end.

(** ** handle.go *)

Definition set_hstore (f : (HandlePtr → Handle) → HandlePtr → Handle) (st : State) : State :=
  mkState (fs st) (nstore st) (nnext st) (f (hstore st)) (hnext st) (world st).

Definition allocHandle (h : Handle) (st : State) : HandlePtr * State :=
  (hnext st,
   mkState (fs st) (nstore st) (nnext st) (<[hnext st := h]> (hstore st))
           (S (hnext st)) (world st)).

(** A world call that returns only an error, run on the state. *)
Definition onWorld (c : World → option error * World) (st : State) : option error * State :=
  let '(err, w) := c (world st) in (err, set_world w st).

(** The deferred log of the [Handle] methods prints [h.f.Name()], and
    [Name] reads a field of its receiver: when the Handle holds the [nil]
    file as the method ends, the method panics instead of returning [r]. *)
Definition logName {A} (f : File) (r : outcome A) : outcome A :=
  if decide (f = nilFile) then Panicked nilDereference else r.

(** [Handle.Flush] *)
Definition Handle_Flush (h : HandlePtr) (st : State) : outcome (option error) * State :=
  let '(err, st) := onWorld (File_Sync (h_f (hstore st h))) st in
  (logName (h_f (hstore st h)) (Returned err), st).

(** Calling [h.reopener()]. *)
Definition reopen (r : reopener) (st : State) : (error + File) * State :=
  let '(res, w) :=
    match r with
    | ReopenNode n flags perm => os_OpenFile (getRealPath n st) flags perm (world st)
    | ReopenName name flags perm => os_OpenFile name flags perm (world st)
    end in
  (res, set_world w st).

(** [getDirentsWithFileInfos], with the slice built so far. *)
Fixpoint getDirentsFrom (dirs : list Dirent) (fis : list FileInfo) : outcome (list Dirent) :=
  match fis with
  | [] => Returned dirs
  | fi :: fis =>
    if FileInfo_IsDir fi then
      getDirentsFrom (dirs ++ [mkDirent (fi_Ino fi) (fi_Name fi) DT_Dir]) fis
    else if FileMode_IsRegular (fi_Mode fi) then
      getDirentsFrom (dirs ++ [mkDirent (fi_Ino fi) (fi_Name fi) DT_File]) fis
    else Panicked "unsupported dirent type"
  end.

Definition getDirentsWithFileInfos (fis : list FileInfo) : outcome (list Dirent) :=
  getDirentsFrom [] fis.

(** [Handle.ReadDirAll]. The assignment [h.f, err = h.reopener()] stores the
    returned file also when the call failed ([nil] then).  The deferred log
    runs on every way out, the panic of the conversion included, with the
    file the Handle holds then. *)
Definition Handle_ReadDirAll (h : HandlePtr) (st : State)
  : outcome (list Dirent * option error) * State :=
  let leave (r : outcome (list Dirent * option error)) (st : State) :=
    (logName (h_f (hstore st h)) r, st) in
  let '((fis, err), w) := File_Readdir (h_f (hstore st h)) (world st) in
  let st := set_world w st in
  match err with
  | Some e => leave (Returned ([], translateError (Some e))) st
  | None =>
    match onWorld (File_Close (h_f (hstore st h))) st with
    | (Some e, st) => leave (Returned ([], translateError (Some e))) st
    | (None, st) =>
      let '(res, st) := reopen (h_reopener (hstore st h)) st in
      let hd := hstore st h in
      match res with
      | inl e =>
        leave (Returned ([], translateError (Some e)))
              (set_hstore (<[h := mkHandle (h_reopener hd) (h_forgetter hd) nilFile]>) st)
      | inr f =>
        let st := set_hstore (<[h := mkHandle (h_reopener hd) (h_forgetter hd) f]>) st in
        match getDirentsWithFileInfos fis with
        | Panicked msg => leave (Panicked msg) st
        | Returned dirs => leave (Returned (dirs, None)) st
        end
      end
    end
  end.

(** ** node.go *)

Definition set_flushers (n : NodePtr) (fl : option (gmap HandlePtr bool)) (st : State) : State :=
  set_nstore (λ s, <[n := mkNode (realPath (s n)) (isDir (s n)) fl]> s) st.

Definition rememberHandle (n : NodePtr) (h : HandlePtr) (st : State) : State :=
  set_flushers n (Some (<[h := true]> (default ∅ (flushers (nstore st n))))) st.

Definition forgetHandle (n : NodePtr) (h : HandlePtr) (st : State) : State :=
  match flushers (nstore st n) with
  | None => st
  | Some m => set_flushers n (Some (delete h m)) st
  end.

(** [Handle.Release] *)
Definition Handle_Release (h : HandlePtr) (st : State) : outcome (option error) * State :=
  let st := match h_forgetter (hstore st h) with
            | Some n => forgetHandle n h st
            | None => st
            end in
  let '(err, st) := onWorld (File_Close (h_f (hstore st h))) st in
  (logName (h_f (hstore st h)) (Returned err), st).

(** [Node.Access]; [mask] is the [uint32] [a.Mask]. *)
Definition Node_Access (n : NodePtr) (mask : Z) (st : State) : option error :=
  match os_Stat (getRealPath n st) (world st) with
  | inl e => translateError (Some e)
  | inr fi =>
    if negb (Z.land mask (uint32 (Z.shiftr (fi_Mode fi) 6)) =? mask)%Z
    then Some EPERM
    else None
  end.

(** [Node.Lookup] *)
Definition Node_Lookup (n : NodePtr) (name : string) (st : State)
  : (error + NodePtr) * State :=
  if negb (isDir (nstore st n)) then (inl ENOTSUP, st) else
  let p := filepath_Join (getRealPath n st) name in
  match os_Stat p (world st) with
  | inl e => (inl (translate (translate e)), st)
  | inr fi =>
    let '(nn, st) := allocNode (mkNode p (FileInfo_IsDir fi) None) st in
    (inr nn, newNode nn st)
  end.

(** [Node.Open]; [flags] and [perm] are what
    [fuseOpenFlagsToOSFlagsAndPerms(req.Flags)] gave. *)
Definition Node_Open (n : NodePtr) (flags perm : Z) (st : State)
  : (error + HandlePtr) * State :=
  let opener := ReopenNode n flags perm in
  match reopen opener st with
  | (inl e, st) => (inl (translate e), st)
  | (inr f, st) =>
    let '(handle, st) := allocHandle (mkHandle opener None f) st in
    let st := rememberHandle n handle st in
    (inr handle, set_hstore (<[handle := mkHandle opener (Some n) f]>) st)
  end.

(** [Node.Create]; [flags] as in [Node_Open], [mode] is [req.Mode]. *)
Definition Node_Create (n : NodePtr) (reqName : string) (flags mode : Z) (st : State)
  : (error + NodePtr * HandlePtr) * State :=
  let name := filepath_Join (getRealPath n st) reqName in
  let opener := ReopenName name flags mode in
  match reopen opener st with
  | (inl e, st) => (inl (translate e), st)
  | (inr f, st) =>
    let '(h, st) := allocHandle (mkHandle opener None f) st in
    let '(node, st) :=
      allocNode (mkNode (filepath_Join (getRealPath n st) reqName)
                        (FileMode_IsDir mode) None) st in
    let st := rememberHandle node h st in
    let st := set_hstore (<[h := mkHandle opener (Some node) f]>) st in
    (inr (node, h), newNode node st)
  end.

(** [Node.Mkdir] *)
Definition Node_Mkdir (n : NodePtr) (reqName : string) (mode : Z) (st : State)
  : (error + NodePtr) * State :=
  let name := filepath_Join (getRealPath n st) reqName in
  match onWorld (os_Mkdir name mode) st with
  | (Some e, st) => (inl (translate e), st)
  | (None, st) =>
    let '(nn, st) := allocNode (mkNode name true None) st in
    (inr nn, newNode nn st)
  end.

(** [Node.Remove]; the deferred function clears the attributes of the
    removed path when [os.Remove] returned [nil]. *)
Definition Node_Remove (n : NodePtr) (reqName : string) (st : State) : option error * State :=
  let name := filepath_Join (getRealPath n st) reqName in
  match onWorld (os_Remove name) st with
  | (None, st) => (None, moveAllxattrs name EmptyString st)
  | (Some e, st) => (Some e, st)
  end.

(** Go's [range] over a map visits the keys in an order of the runtime's
    choosing: [seeds] drives that choice, one pick among the keys left per
    seed. *)
Fixpoint shuffle {A} (seeds : list nat) (l : list A) : list A :=
  match seeds with
  | [] => l
  | s :: seeds =>
    match l !! (s mod length l)%nat with
    | Some x => x :: shuffle seeds (delete (s mod length l)%nat l)
    | None => l
    end
  end.

Definition rangeKeys `{Countable K} {V} (seeds : list nat) (m : gmap K V) : list K :=
  shuffle seeds (map_to_list m).*1.

(** [Node.Fsync]: the first Handle the [range] yields, if any. *)
Definition Node_Fsync (seeds : list nat) (n : NodePtr) (st : State) : option error * State :=
  match rangeKeys seeds (default ∅ (flushers (nstore st n))) with
  | h :: _ => onWorld (File_Sync (h_f (hstore st h))) st
  | [] => (Some EIO, st)
  end.

(** *** Setattr *)

(** Calls of [Node.Setattr] run in sequence on the world; the first error
    ends the method, and every error it returns went through
    [translateError]. *)
Definition Try (A : Type) : Type := World → (error + A) * World.

Definition ret {A} (a : A) : Try A := λ w, (inr a, w).

Definition bind {A B} (m : Try A) (k : A → Try B) : Try B :=
  λ w, match m w with
       | (inl e, w) => (inl e, w)
       | (inr a, w) => k a w
       end.

Local Instance Try_ret : MRet Try := @ret.
Local Instance Try_bind : MBind Try := λ A B k m, bind m k.

Definition call (c : World → option error * World) : Try unit :=
  λ w, match c w with
       | (Some e, w) => (inl (translate e), w)
       | (None, w) => (inr tt, w)
       end.

Definition stat (p : string) : Try FileInfo :=
  λ w, match os_Stat p w with
       | inl e => (inl (translate e), w)
       | inr fi => (inr fi, w)
       end.

Definition when (b : bool) (m : Try unit) : Try unit :=
  if b then m else ret tt.

Definition int64 (z : Z) : Z := ((z + 2 ^ 63) mod 2 ^ 64 - 2 ^ 63)%Z.

(** The array [tvs] of the [req.Valid.Mtime()] block: access time first,
    modification time second. *)
Definition setattrTimevals (req : SetattrRequest) (now : Z) : Timeval * Timeval :=
  (if negb (valid SetattrAtime req) then tToTv now else tToTv (sa_Atime req),
   tToTv (sa_Mtime req)).

(** The body of [Node.Setattr] on the Node's path [p]. [tvs] is local to its
    block: it is filled in and goes out of scope, no call receives it. *)
Definition setattrCalls (p : string) (req : SetattrRequest) (attr : Attr) : Try Attr :=
  when (valid SetattrSize req) (call (syscall_Truncate p (int64 (sa_Size req)))) ;;
  now ← ((λ w, (inr (time_Now w), w)) : Try Z) ;
  let tvs := if valid SetattrMtime req then Some (setattrTimevals req now) else None in
  when (valid SetattrMode req) (call (os_Chmod p (sa_Mode req))) ;;
  when (valid SetattrUid req || valid SetattrGid req)
    (when (valid SetattrUid req && valid SetattrGid req)
       (call (os_Chown p (sa_Uid req) (sa_Gid req))) ;;
     fi ← stat p ;
     if valid SetattrUid req
     then call (os_Chown p (sa_Uid req) (fi_Gid fi))
     else call (os_Chown p (fi_Uid fi) (sa_Gid req))) ;;
  call (setattrPlatformSpecific p req) ;;
  fi ← stat p ;
  ret (fillAttrWithFileInfo attr fi).

(** [Node.Setattr]; [attr] is [resp.Attr], returned unchanged on error. *)
Definition Node_Setattr (n : NodePtr) (req : SetattrRequest) (attr : Attr) (st : State)
  : option error * Attr * State :=
  match setattrCalls (getRealPath n st) req attr (world st) with
  | (inl e, w) => (Some e, attr, set_world w st)
  | (inr a, w) => (None, a, set_world w st)
  end.

(** *** Rename *)

(** [Node.Rename]. [return os.Rename(op, np)] sets [err]; the deferred
    function then migrates the attributes and the registry when [err] is
    [nil]. *)
Definition Node_Rename (n : NodePtr) (req : RenameRequest) (newDir : NodePtr) (st : State)
  : option error * State :=
  let np := filepath_Join (getRealPath newDir st) (rn_NewName req) in
  let op := filepath_Join (getRealPath n st) (rn_OldName req) in
  match onWorld (os_Rename op np) st with
  | (None, st) => (None, nodeRenamed op np (moveAllxattrs op np st))
  | (Some e, st) => (Some e, st)
  end.

(** *** Extended attributes *)

(** [Node.Getxattr]: the error, or [resp.Xattr]. *)
Definition Node_Getxattr (n : NodePtr) (name : string) (st : State) : error + list byte :=
  if negb (inMemoryXattr (fs st)) then inl ENOTSUP else
  match xattrsAt (getRealPath n st) (fs st) with
  | Some x =>
    match x !! name with
    | Some v => inr v
    | None => inl ENODATA
    end
  | None => inl ENODATA
  end.

(** [Node.Listxattr]. [resp] is the list of names given to [resp.Append] so
    far; [sort.Strings] orders by bytes, as [String.le] does. *)
Definition Node_Listxattr (seeds : list nat) (n : NodePtr) (req : ListxattrRequest)
    (resp : list string) (st : State) : option error * list string :=
  if negb (inMemoryXattr (fs st)) then (Some ENOTSUP, resp) else
  match xattrsAt (getRealPath n st) (fs st) with
  | Some x =>
    let names := merge_sort String.le (rangeKeys seeds x) in
    if (Z.of_nat (length names) <=? Z.of_N (lx_Position req))%Z then (None, resp) else
    let names := drop (N.to_nat (lx_Position req)) names in
    let s := Z.of_N (lx_Size req) in
    let s := if (s =? 0)%Z || (Z.of_nat (length names) <? s)%Z
             then Z.of_nat (length names) else s in
    if (0 <? s)%Z then (None, resp ++ take (Z.to_nat s) names) else (None, resp)
  | None => (None, resp)
  end.

(** [Node.Setxattr]; the stored value is a copy of [req.Xattr]. *)
Definition Node_Setxattr (n : NodePtr) (name : string) (value : list byte) (st : State)
  : option error * State :=
  if negb (inMemoryXattr (fs st)) then (Some ENOTSUP, st) else
  let p := getRealPath n st in
  let x := default ∅ (xattrsAt p (fs st)) in
  (None, set_fs (λ f, set_xattrs (<[p := Some (<[name := value]> x)]> (xattrs f)) f) st).

(** [Node.Removexattr]; [delete(x, name)] acts on the map the store holds. *)
Definition Node_Removexattr (n : NodePtr) (name : string) (st : State)
  : option error * State :=
  if negb (inMemoryXattr (fs st)) then (Some ENOTSUP, st) else
  let p := getRealPath n st in
  match xattrsAt p (fs st) with
  | Some x =>
    match x !! name with
    | Some _ =>
      (None, set_fs (λ f, set_xattrs (<[p := Some (delete name x)]> (xattrs f)) f) st)
    | None => (Some ENODATA, st)
    end
  | None => (Some ENODATA, st)
  end.

(** [Node.Forget] *)
Definition Node_Forget (n : NodePtr) (st : State) : State := forgetNode n st.

End Overlay.

Arguments State {U}.
Arguments Handle {U}.

(** ** Vocabulary of the properties *)

Section Vocabulary.
Context `{U : Underlying}.

(** Node [n] is in the registry bucket of path [k]. *)
Definition registered (n : NodePtr) (k : string) (st : State) : Prop :=
  n ∈ bucket (nodes (fs st)) k.

(** Every registered Node sits in the bucket of its own path. *)
Definition registry_inv (st : State) : Prop :=
  ∀ k n, registered n k st → getRealPath n st = k.

(** No Node sits in the buckets of two paths. *)
Definition registry_single (st : State) : Prop :=
  ∀ k1 k2 n, registered n k1 st → registered n k2 st → k1 = k2.

(** The registry holds allocated Nodes only, each under its own path. *)
Definition registry_ok (st : State) : Prop :=
  registry_inv st ∧ ∀ k n, registered n k st → n < nnext st.

(** [st'] has the buckets, the path fields and the Node allocation pointer
    of [st]. *)
Definition same_registry (st st' : State) : Prop :=
  nodes (fs st') = nodes (fs st) ∧
  (∀ n, realPath (nstore st' n) = realPath (nstore st n)) ∧
  nnext st' = nnext st.

(** [st'] has the configuration of [st]. *)
Definition same_config (st st' : State) : Prop :=
  latency (fs st') = latency (fs st) ∧
  inMemoryXattr (fs st') = inMemoryXattr (fs st) ∧
  rootPath (fs st') = rootPath (fs st).

(** The operations on the registry: registering a Node just made (as
    [Root], [Lookup], [Create] and [Mkdir] do), [nodeRenamed] and
    [forgetNode], on any arguments. *)
Inductive RegOp :=
| OpNewNode (nd : Node)
| OpNodeRenamed (oldPath newPath : string)
| OpForgetNode (n : NodePtr).

Definition regStep (st : State) (op : RegOp) : State :=
  match op with
  | OpNewNode nd => let '(n, st) := allocNode nd st in newNode n st
  | OpNodeRenamed oldPath newPath => nodeRenamed oldPath newPath st
  | OpForgetNode n => forgetNode n st
  end.

(** The methods the protocol layer calls, results dropped. *)
Inductive Call :=
| CRoot
| CLookup (n : NodePtr) (name : string)
| COpen (n : NodePtr) (flags perm : Z)
| CCreate (n : NodePtr) (name : string) (flags mode : Z)
| CMkdir (n : NodePtr) (name : string) (mode : Z)
| CRemove (n : NodePtr) (name : string)
| CFsync (seeds : list nat) (n : NodePtr)
| CSetattr (n : NodePtr) (req : SetattrRequest) (attr : Attr)
| CRename (n : NodePtr) (req : RenameRequest) (newDir : NodePtr)
| CSetxattr (n : NodePtr) (name : string) (value : list byte)
| CRemovexattr (n : NodePtr) (name : string)
| CForget (n : NodePtr)
| CFlush (h : HandlePtr)
| CReadDirAll (h : HandlePtr)
| CRelease (h : HandlePtr).

Definition callStep (st : State) (c : Call) : State :=
  match c with
  | CRoot => (Root st).2
  | CLookup n name => (Node_Lookup n name st).2
  | COpen n flags perm => (Node_Open n flags perm st).2
  | CCreate n name flags mode => (Node_Create n name flags mode st).2
  | CMkdir n name mode => (Node_Mkdir n name mode st).2
  | CRemove n name => (Node_Remove n name st).2
  | CFsync seeds n => (Node_Fsync seeds n st).2
  | CSetattr n req attr => (Node_Setattr n req attr st).2
  | CRename n req newDir => (Node_Rename n req newDir st).2
  | CSetxattr n name value => (Node_Setxattr n name value st).2
  | CRemovexattr n name => (Node_Removexattr n name st).2
  | CForget n => Node_Forget n st
  | CFlush h => (Handle_Flush h st).2
  | CReadDirAll h => (Handle_ReadDirAll h st).2
  | CRelease h => (Handle_Release h st).2
  end.

(** A step of the system: a method call, or a registry operation on its
    own. *)
Definition step (st : State) (op : Call + RegOp) : State :=
  match op with
  | inl c => callStep st c
  | inr r => regStep st r
  end.

Definition run (ops : list (Call + RegOp)) (st : State) : State :=
  foldl step st ops.

(** The state in which [NewFS(latency)] returns: nothing allocated. *)
Definition start (latency : Z) (w : World) : State :=
  mkState (NewFS latency) (λ _, zeroNode) 0
          (λ _, mkHandle (ReopenName EmptyString 0 0) None nilFile) 0 w.

(** [req] with other requested times. *)
Definition with_times (req : SetattrRequest) (atime mtime : Z) : SetattrRequest :=
  mkSetattrRequest (sa_Valid req) (sa_Size req) atime mtime
                   (sa_Mode req) (sa_Uid req) (sa_Gid req).

(** The attribute set stored under path [p]. *)
Definition attrsAt (p : string) (st : State) : gmap string (list byte) :=
  default ∅ (xattrsAt p (fs st)).

(** What [Getxattr] answers from an attribute set. *)
Definition answer (x : gmap string (list byte)) (name : string) : error + list byte :=
  match x !! name with
  | Some v => inr v
  | None => inl ENODATA
  end.

(** The Handles a Node owns. *)
Definition handlesOf (n : NodePtr) (st : State) : gmap HandlePtr bool :=
  default ∅ (flushers (nstore st n)).


(** The attribute names of [x] in the order of [sort.Strings]. *)
Definition sortedNames (x : gmap string (list byte)) : list string :=
  merge_sort String.le (map_to_list x).*1.

(** One page of [Listxattr] on a fresh response. *)
Definition page (seeds : list nat) (n : NodePtr) (st : State) (pos size : N) : list string :=
  (Node_Listxattr seeds n (mkListxattrRequest size pos) [] st).2.

(** Repeated calls, each starting where the one before stopped; [calls]
    gives the count asked for and the [range] order of each call. *)
Fixpoint pages (n : NodePtr) (st : State) (pos : N) (calls : list (N * list nat))
  : list (list string) :=
  match calls with
  | [] => []
  | (size, seeds) :: calls =>
    let pg := page seeds n st pos size in
    pg :: pages n st (pos + N.of_nat (length pg)) calls
  end.

(** At most [size] names of [l], all of them when [size] is zero. *)
Definition limit (size : N) (l : list string) : list string :=
  if (size =? 0)%N then l else take (N.to_nat size) l.

(** Every bit set in [a] is set in [b]. *)
Definition bits_subset (a b : Z) : Prop :=
  ∀ i, (0 ≤ i)%Z → Z.testbit a i = true → Z.testbit b i = true.

(** A directory entry that is neither a directory nor a regular file. *)
Definition unsupported (fi : FileInfo) : bool :=
  negb (FileInfo_IsDir fi) && negb (FileMode_IsRegular (fi_Mode fi)).

End Vocabulary.

(** ** Further code of the package, and the vocabulary of its properties *)

(** Values of the [fuse.Open...] flags of the protocol library and of the
    [os.O_...] flags they are turned into: constants of the platform, taken
    as given. *)
Record OpenConsts := mkOpenConsts {
  OpenAccessModeMask : Z;
  OpenAppend : Z;
  OpenCreate : Z;
  OpenDirectory : Z;
  OpenExclusive : Z;
  OpenNonblock : Z;
  OpenSync : Z;
  OpenTruncate : Z;
  O_CREATE : Z;
  O_SYNC : Z;
  O_TRUNC : Z;
}.

Definition ModeAppend : Z := 2 ^ 30.
Definition ModeExclusive : Z := 2 ^ 29.

(** [fuseOpenFlagsToOSFlagsAndPerms]: [(flag, perm)]. The [OpenNonblock]
    branch only logs. *)
Definition fuseOpenFlagsToOSFlagsAndPerms (c : OpenConsts) (f : Z) : Z * Z :=
  let set (bit : Z) : bool := negb (Z.land f bit =? 0)%Z in
  let flag := Z.land f (OpenAccessModeMask c) in
  let perm := 0%Z in
  let perm := if set (OpenAppend c) then Z.lor perm ModeAppend else perm in
  let flag := if set (OpenCreate c) then Z.lor flag (O_CREATE c) else flag in
  let perm := if set (OpenDirectory c) then Z.lor perm ModeDir else perm in
  let perm := if set (OpenExclusive c) then Z.lor perm ModeExclusive else perm in
  let flag := if set (OpenSync c) then Z.lor flag (O_SYNC c) else flag in
  let flag := if set (OpenTruncate c) then Z.lor flag (O_TRUNC c) else flag in
  (flag, perm).

(** [l] without the first occurrence of [n]. *)
Fixpoint removeFirst (n : nat) (l : list nat) : list nat :=
  match l with
  | [] => []
  | x :: l => if decide (x = n) then l else x :: removeFirst n l
  end.

Section Further.
Context `{U : Underlying}.

(** [Node.Attr]; [a] is the [fuse.Attr] to fill. *)
Definition Node_Attr (n : NodePtr) (a : Attr) (st : State) : option error * Attr :=
  match os_Stat (getRealPath n st) (world st) with
  | inl e => (translateError (Some e), a)
  | inr fi => (None, fillAttrWithFileInfo a fi)
  end.

(** [Node.Open] from the flags of the request. *)
Definition Node_Open_request (c : OpenConsts) (n : NodePtr) (reqFlags : Z) (st : State)
  : (error + HandlePtr) * State :=
  let '(flags, perm) := fuseOpenFlagsToOSFlagsAndPerms c reqFlags in
  Node_Open n flags perm st.

(** [Node.Create] from the flags and the mode of the request; the
    permissions computed from the flags are dropped. *)
Definition Node_Create_request (c : OpenConsts) (n : NodePtr) (reqName : string)
    (reqFlags reqMode : Z) (st : State) : (error + NodePtr * HandlePtr) * State :=
  let '(flags, _) := fuseOpenFlagsToOSFlagsAndPerms c reqFlags in
  Node_Create n reqName flags reqMode st.

(** No Node is twice in a bucket. *)
Definition registry_nodup (st : State) : Prop :=
  ∀ k, NoDup (bucket (nodes (fs st)) k).

(** What [Node.Rename] does to the attributes and the registry once the
    underlying rename has succeeded. *)
Definition migrate (oldPath newPath : string) (st : State) : State :=
  nodeRenamed oldPath newPath (moveAllxattrs oldPath newPath st).

(** The entry [getDirentsWithFileInfos] makes of a directory or a regular
    file. *)
Definition direntOf (fi : FileInfo) : Dirent :=
  mkDirent (fi_Ino fi) (fi_Name fi) (if FileInfo_IsDir fi then DT_Dir else DT_File).

(** Between [st] and [st'] the directory Node [nd], not allocated before,
    was made for path [p] and appended to the bucket of [p]; no other Node
    and no other bucket changed. *)
Definition adds_directory (st : State) (nd : NodePtr) (p : string) (st' : State) : Prop :=
  nd = nnext st ∧
  nstore st' nd = mkNode p true None ∧
  (∀ m, m ≠ nd → nstore st' m = nstore st m) ∧
  (∀ k, bucket (nodes (fs st')) k =
        if decide (k = p) then bucket (nodes (fs st)) p ++ [nd]
        else bucket (nodes (fs st)) k).

(** The methods that write to the attribute store. *)
Definition writes_xattrs (c : Call) : bool :=
  match c with
  | CRemove _ _ | CRename _ _ _ | CSetxattr _ _ _ | CRemovexattr _ _ => true
  | _ => false
  end.

(** The methods that write to the registry or to the path of a Node. *)
Definition writes_registry (c : Call) : bool :=
  match c with
  | CRoot | CLookup _ _ | CCreate _ _ _ _ | CMkdir _ _ _ | CRename _ _ _ | CForget _ => true
  | _ => false
  end.

End Further.



(** ** A small in-memory file system

    An instance of [Underlying] on which the methods can be run: files are
    a map from clean relative paths to their [FileInfo], open files a table
    indexed by descriptor; a directory stream holds the entries found when
    it was opened and is used up by reading it, and [Readdir] looks each
    of them up by its path, as [lstat] does, leaving out those it does not
    find.  [setattrPlatformSpecific]
    does nothing here. *)
Module MemFS.

Record OpenFile := mkOpenFile {
  of_path : string;
  of_closed : bool;
  of_entries : list FileInfo;
}.

Record W := mkW {
  files : gmap string FileInfo;
  fds : list OpenFile;
  clock : Z;
}.

Definition set_files (fs : gmap string FileInfo) (w : W) : W :=
  mkW fs (fds w) (clock w).

Definition ENOENT_os : error := OsError NotExist 2.
Definition EBADF_os : error := OsError OtherKind 9.
Definition EINVAL_os : error := OsError OtherKind 22.
Definition EEXIST_os : error := OsError Exist 17.

(** [filepath.Join] on a clean directory path and a single name. *)
Definition join (dir name : string) : string :=
  if decide (dir = ".") then name else dir +:+ "/" +:+ name.

Definition Stat (p : string) (w : W) : error + FileInfo :=
  match files w !! p with
  | Some fi => inr fi
  | None => inl ENOENT_os
  end.

Definition under (p k : string) : bool :=
  bool_decide (k = p) || strictDescendant p k.

Definition rebase (op np k : string) : string :=
  np +:+ String.substring (String.length op) (String.length k - String.length op) k.

(** Last element of a path. *)
Fixpoint baseFrom (acc s : string) : string :=
  match s with
  | EmptyString => acc
  | String c s => if Ascii.eqb c "/" then baseFrom EmptyString s else baseFrom (acc +:+ String c EmptyString) s
  end.

Definition renamed (op np k : string) (fi : FileInfo) : FileInfo :=
  if decide (k = op)
  then mkFileInfo (baseFrom EmptyString np) (fi_Size fi) (fi_Mode fi) (fi_ModTime fi)
                  (fi_Ino fi) (fi_Uid fi) (fi_Gid fi)
  else fi.

(** [rename(2)]: a directory cannot move below itself; the entry and
    everything below it move, replacing what was at the destination. *)
Definition Rename (op np : string) (w : W) : option error * W :=
  if strictDescendant op np then (Some EINVAL_os, w) else
  match files w !! op with
  | None => (Some ENOENT_os, w)
  | Some _ =>
    if decide (op = np) then (None, w) else
    let l := map_to_list (files w) in
    let moved := (λ kv, (rebase op np kv.1, renamed op np kv.1 kv.2)) <$> filter (λ kv, under op kv.1 = true) l in
    let kept := filter (λ kv, under op kv.1 = false ∧ under np kv.1 = false) l in
    (None, set_files (list_to_map (moved ++ kept)) w)
  end.

Definition Remove (p : string) (w : W) : option error * W :=
  match files w !! p with
  | None => (Some ENOENT_os, w)
  | Some _ => (None, set_files (delete p (files w)) w)
  end.

Definition update (p : string) (f : FileInfo → FileInfo) (w : W) : option error * W :=
  match files w !! p with
  | None => (Some ENOENT_os, w)
  | Some fi => (None, set_files (<[p := f fi]> (files w)) w)
  end.

Definition Mkdir (p : string) (mode : Z) (w : W) : option error * W :=
  match files w !! p with
  | Some _ => (Some EEXIST_os, w)
  | None =>
    (None, set_files (<[p := mkFileInfo p 0 (Z.lor ModeDir (Z.land mode 511)) (clock w) 0 0 0]>
                        (files w)) w)
  end.

Definition Chmod (p : string) (mode : Z) : W → option error * W :=
  update p (λ fi, mkFileInfo (fi_Name fi) (fi_Size fi)
                    (Z.lor (Z.land (fi_Mode fi) (Z.lnot 511)) (Z.land mode 511))
                    (fi_ModTime fi) (fi_Ino fi) (fi_Uid fi) (fi_Gid fi)).

Definition Chown (p : string) (uid gid : Z) : W → option error * W :=
  update p (λ fi, mkFileInfo (fi_Name fi) (fi_Size fi) (fi_Mode fi)
                    (fi_ModTime fi) (fi_Ino fi) uid gid).

Definition Truncate (p : string) (size : Z) (w : W) : option error * W :=
  update p (λ fi, mkFileInfo (fi_Name fi) size (fi_Mode fi)
                    (clock w) (fi_Ino fi) (fi_Uid fi) (fi_Gid fi)) w.

(** The entries of directory [p]. *)
Definition children (p : string) (fs : gmap string FileInfo) : list FileInfo :=
  (filter (λ kv, kv.1 = join p (fi_Name kv.2) ∧ kv.1 ≠ p) (map_to_list fs)).*2.

(** A descriptor is an index into [fds]; [None] is the [nil] file. *)
Definition OpenFile_ (p : string) (flags perm : Z) (w : W) : (error + option nat) * W :=
  match files w !! p with
  | None => (inl ENOENT_os, w)
  | Some _ => (inr (Some (length (fds w))),
               mkW (files w) (fds w ++ [mkOpenFile p false (children p (files w))]) (clock w))
  end.

Definition openAt (f : option nat) (w : W) : option OpenFile :=
  fd ← f; o ← fds w !! fd; if of_closed o then None else Some o.

(** [fsync(2)]: EINVAL on a descriptor bound to a FIFO or a socket, which
    do not support synchronisation.  On the [nil] file [Sync], [Close] and
    [Readdir] return [os.ErrInvalid], an invalid-argument error; on a
    closed file, the error of a bad descriptor. *)
Definition Sync (f : option nat) (w : W) : option error * W :=
  if decide (f = None) then (Some EINVAL_os, w) else
  match openAt f w with
  | Some o =>
    match files w !! of_path o with
    | Some fi =>
      if negb (Z.land (fi_Mode fi) (Z.lor ModeNamedPipe ModeSocket) =? 0)%Z
      then (Some EINVAL_os, w)
      else (None, w)
    | None => (None, w)
    end
  | None => (Some EBADF_os, w)
  end.

Definition Close (f : option nat) (w : W) : option error * W :=
  if decide (f = None) then (Some EINVAL_os, w) else
  match f, openAt f w with
  | Some fd, Some o =>
    (None, mkW (files w) (<[fd := mkOpenFile (of_path o) true []]> (fds w)) (clock w))
  | _, _ => (Some EBADF_os, w)
  end.

Definition Readdir (f : option nat) (w : W) : (list FileInfo * option error) * W :=
  if decide (f = None) then ([], Some EINVAL_os, w) else
  match f, openAt f w with
  | Some fd, Some o =>
    (omap (λ fi, files w !! join (of_path o) (fi_Name fi)) (of_entries o), None,
     mkW (files w) (<[fd := mkOpenFile (of_path o) false []]> (fds w)) (clock w))
  | _, _ => ([], Some EBADF_os, w)
  end.

Definition toTv (t : Z) : Z * Z :=
  ((t / 1000000000)%Z, (t mod 1000000000 / 1000)%Z).

(** [OpenFile_] returns a descriptor when it returns no error. *)
Definition OpenFile_not_nil (p : string) (flags perm : Z) (w : W) (f : option nat) (w' : W) :
  OpenFile_ p flags perm w = (inr f, w') → f ≠ None.
Proof. unfold OpenFile_. destruct (files w !! p); intros [= <- <-]; discriminate. Defined.

Global Instance memfs : Underlying := {|
  World := W;
  File := option nat;
  nilFile := None;
  File_eq_dec := _;
  Attr := FileInfo;
  Timeval := Z * Z;
  filepath_Join := join;
  time_Now := clock;
  os_Stat := Stat;
  os_Rename := Rename;
  os_Remove := Remove;
  os_Mkdir := Mkdir;
  os_Chmod := Chmod;
  os_Chown := Chown;
  syscall_Truncate := Truncate;
  os_OpenFile := OpenFile_;
  File_Sync := Sync;
  File_Close := Close;
  File_Readdir := Readdir;
  tToTv := toTv;
  fillAttrWithFileInfo := λ _ fi, fi;
  setattrPlatformSpecific := λ _ _ w, (None, w);
  os_OpenFile_not_nil := OpenFile_not_nil;
|}.

Definition file (name : string) (mode mtime ino : Z) : FileInfo :=
  mkFileInfo name 0 mode mtime ino 1000 1000.

(** A tree with directory [d], regular files [a], [b] and [d/f], a
    symbolic link [d/l] and a FIFO [p]. *)
Definition tree : gmap string FileInfo :=
  list_to_map
    [ ("."   , file "." (Z.lor ModeDir 493) 1 1);
      ("a"   , file "a" 420 5 2);
      ("b"   , file "b" 420 6 3);
      ("d"   , file "d" (Z.lor ModeDir 493) 7 4);
      ("d/f" , file "f" 384 8 5);
      ("d/l" , file "l" (Z.lor ModeSymlink 511) 9 6);
      ("p"   , file "p" (Z.lor ModeNamedPipe 420) 10 7) ].

Definition w0 : W := mkW tree [] 1000.

(** The state behind [overlay.NewFS(latency)]. *)
Definition init (latency : Z) (w : W) : @State memfs := start latency w.

(** The same with in-memory attributes switched on. *)
Definition initX (lat : Z) (w : W) : @State memfs :=
  set_fs (λ f, mkFS (rootPath f) (xattrs f) (nodes f) (latency f) true)
         (init lat w).

(** The root Node, then Nodes by [Lookup]: [1] and [2] for [a], [3] for
    [b], [4] for [d], [5] for [d/f]. *)
Definition lookups : list (Call + RegOp) :=
  [inl CRoot; inl (CLookup 0 "a"); inl (CLookup 0 "a"); inl (CLookup 0 "b");
   inl (CLookup 0 "d"); inl (CLookup 4 "f")].

Definition value1 : list byte := [x01; x02].
Definition value2 : list byte := [x03].

(** Attributes on [a] only, set through Node [1]. *)
Definition st_attr_a : @State memfs :=
  run (lookups ++ [inl (CSetxattr 1 "user.k" value1)]) (initX 0 w0).

(** Attributes on [b] only. *)
Definition st_attr_b : @State memfs :=
  run (lookups ++ [inl (CSetxattr 3 "user.old" value2)]) (initX 0 w0).

(** Attributes on [d/f]. *)
Definition st_attr_df : @State memfs :=
  run (lookups ++ [inl (CSetxattr 5 "user.k" value1)]) (initX 0 w0).

(** Three attributes on [a], set in an order that is not the sorted one. *)
Definition st_three : @State memfs :=
  run (lookups ++ [inl (CSetxattr 1 "user.m" value1); inl (CSetxattr 2 "user.z" value2);
                   inl (CSetxattr 1 "user.b" [])]) (initX 0 w0).

(** Directory [d] opened through Node [4]: Handle [0]. *)
Definition st_open_d : @State memfs :=
  run (lookups ++ [inl (COpen 4 0 0)]) (init 0 w0).

(** The same after [d] was renamed to [e] on the underlying file system,
    behind the back of the overlay. *)
Definition st_open_d_moved : @State memfs :=
  set_world (Rename "d" "e" (world st_open_d)).2 st_open_d.

(** The FIFO [p] looked up (Node [6]) and opened: Handle [0]. *)
Definition st_open_p : @State memfs :=
  run (lookups ++ [inl (CLookup 0 "p"); inl (COpen 6 2 0)]) (init 0 w0).

(** An empty [resp.Attr]. *)
Definition attr0 : FileInfo := file EmptyString 0 0 0.

(** A request to set the modification time to 100 s. *)
Definition req_mtime : SetattrRequest :=
  mkSetattrRequest SetattrMtime 0 0 100000000000 0 0 0.

(** The same with the access time, 50 s, asked for as well. *)
Definition req_times : SetattrRequest :=
  mkSetattrRequest (Z.lor SetattrAtime SetattrMtime) 0 50000000000 100000000000 0 0 0.

(** The same request with no times filled in. *)
Definition req_notimes : SetattrRequest :=
  mkSetattrRequest (Z.lor SetattrAtime SetattrMtime) 0 0 0 0 0 0.

(** The Nodes of [lookups] and nothing else. *)
Definition st_lookups : @State memfs := run lookups (init 0 w0).

(** The same after Node [3], the only Node of [b], was forgotten. *)
Definition st_forgot_b : @State memfs :=
  run (lookups ++ [inl (CForget 3)]) (init 0 w0).

(** [user.k] on [a], set through Node [1]; Node [2], the other Node of
    [a], then forgotten: it keeps the path [a] and is in no bucket. *)
Definition st_attr_a_forgot : @State memfs :=
  run (lookups ++ [inl (CSetxattr 1 "user.k" value1); inl (CForget 2)]) (initX 0 w0).

(** [user.old] on [b] and nothing on [a]; Node [2] forgotten. *)
Definition st_attr_b_forgot : @State memfs :=
  run (lookups ++ [inl (CSetxattr 3 "user.old" value2); inl (CForget 2)]) (initX 0 w0).

(** [user.old] on [b]; on [a] an attribute was set and removed again, which
    leaves an empty map that is not [nil] under [a]. *)
Definition st_attr_b_emptied : @State memfs :=
  run (lookups ++ [inl (CSetxattr 3 "user.old" value2); inl (CSetxattr 1 "user.t" value1);
                   inl (CRemovexattr 1 "user.t")]) (initX 0 w0).


(** [d] opened, renamed behind the back of the overlay, and listed: the
    re-open has failed and Handle [0] holds the [nil] file. *)
Definition st_nil_file : @State memfs :=
  (Handle_ReadDirAll 0 st_open_d_moved).2.

(** The symbolic link [d/l] removed, then [d] opened through Node [4]:
    Handle [0], on a directory that holds the regular file [d/f] only. *)
Definition st_open_d_plain : @State memfs :=
  run (lookups ++ [inl (CRemove 4 "l"); inl (COpen 4 0 0)]) (init 0 w0).

End MemFS.

(** * Properties *)

(** ** The registry *)

Section Registry.
Context `{U : Underlying}.

(** The deferred log changes what a Handle method returns, not what it
    does to the state. *)
Lemma Handle_Flush_state h st :
  (Handle_Flush h st).2 = (onWorld (File_Sync (h_f (hstore st h))) st).2.
Proof. unfold Handle_Flush. by destruct (onWorld _ st). Qed.

Lemma Handle_Release_state h st :
  (Handle_Release h st).2 =
  (onWorld (File_Close (h_f (hstore st h)))
     match h_forgetter (hstore st h) with
     | Some n => forgetHandle n h st
     | None => st
     end).2.
Proof.
  unfold Handle_Release.
  destruct (h_forgetter (hstore st h)) as [n|].
  - assert (hstore (forgetHandle n h st) = hstore st) as ->
      by (unfold forgetHandle; by case_match).
    by destruct (onWorld _ _).
  - by destruct (onWorld _ _).
Qed.
Implicit Types (st : State) (n m : nat) (k p : string).

Lemma bucket_insert (ns : gmap string (list nat)) k k' l :
  bucket (<[k := l]> ns) k' = if decide (k' = k) then l else bucket ns k'.
Proof.
  unfold bucket. case_decide as E.
  - subst. by rewrite lookup_insert_eq.
  - by rewrite lookup_insert_ne.
Qed.

Lemma bucket_delete (ns : gmap string (list nat)) k k' :
  bucket (delete k ns) k' = if decide (k' = k) then [] else bucket ns k'.
Proof.
  unfold bucket. case_decide as E.
  - subst. by rewrite lookup_delete_eq.
  - by rewrite lookup_delete_ne.
Qed.

Lemma bucket_lookup (ns : gmap string (list nat)) k l :
  ns !! k = Some l → bucket ns k = l.
Proof. unfold bucket. by intros ->. Qed.

(** The loop of [nodeRenamed] touches the path field of the listed Nodes
    and nothing else. *)
Lemma update_loop_frame l rp st :
  let st' := foldl (λ st n, updateRealPath n rp st) st l in
  fs st' = fs st ∧ nnext st' = nnext st ∧ hstore st' = hstore st ∧
  hnext st' = hnext st ∧ world st' = world st.
Proof.
  revert st. induction l as [|a l IH]; intros st; simpl; [done|].
  destruct (IH (updateRealPath a rp st)) as (-> & -> & -> & -> & ->). done.
Qed.

Lemma update_loop_node l rp st n :
  nstore (foldl (λ st n, updateRealPath n rp st) st l) n =
  if decide (n ∈ l)
  then mkNode rp (isDir (nstore st n)) (flushers (nstore st n))
  else nstore st n.
Proof.
  revert st. induction l as [|a l IH]; intros st.
  - done.
  - cbn [foldl]. rewrite IH. unfold updateRealPath, set_nstore. cbn [nstore].
    destruct (decide (a = n)) as [->|Hne].
    + rewrite fn_lookup_insert. cbn [isDir flushers].
      rewrite (decide_True (P := n ∈ n :: l)) by left.
      by destruct (decide (n ∈ l)).
    + rewrite fn_lookup_insert_ne by done.
      destruct (decide (n ∈ l)) as [Hin|Hin].
      * by rewrite decide_True by (by right).
      * rewrite decide_False; [done|]. intros [?|?]%elem_of_cons; by subst.
Qed.

(** Where [nodeRenamed] leaves the buckets. *)
Lemma nodeRenamed_bucket oldPath newPath st k :
  bucket (nodes (fs (nodeRenamed oldPath newPath st))) k =
  if decide (k = oldPath) then []
  else if decide (k = newPath)
       then bucket (nodes (fs st)) newPath ++ bucket (nodes (fs st)) oldPath
       else bucket (nodes (fs st)) k.
Proof.
  unfold nodeRenamed; cbv zeta.
  match goal with |- context [foldl ?f ?s ?l] =>
    destruct (update_loop_frame l newPath s) as (-> & _) end.
  simpl. rewrite bucket_delete. case_decide; [done|].
  by rewrite bucket_insert.
Qed.

(** Which Nodes [nodeRenamed] writes to. *)
Lemma nodeRenamed_node oldPath newPath st n :
  nstore (nodeRenamed oldPath newPath st) n =
  if decide (n ∈ bucket (nodes (fs (nodeRenamed oldPath newPath st))) newPath)
  then mkNode newPath (isDir (nstore st n)) (flushers (nstore st n))
  else nstore st n.
Proof.
  rewrite nodeRenamed_bucket. unfold nodeRenamed; cbv zeta.
  rewrite update_loop_node. simpl.
  rewrite bucket_delete, bucket_insert.
  rewrite (decide_True (P := newPath = newPath)) by done.
  done.
Qed.

Lemma nodeRenamed_frame oldPath newPath st :
  let st' := nodeRenamed oldPath newPath st in
  xattrs (fs st') = xattrs (fs st) ∧ latency (fs st') = latency (fs st) ∧
  inMemoryXattr (fs st') = inMemoryXattr (fs st) ∧ rootPath (fs st') = rootPath (fs st) ∧
  nnext st' = nnext st ∧ hstore st' = hstore st ∧ hnext st' = hnext st ∧
  world st' = world st.
Proof.
  unfold nodeRenamed; cbv zeta.
  match goal with |- context [foldl ?f ?s ?l] =>
    destruct (update_loop_frame l newPath s) as (-> & -> & -> & -> & ->) end.
  done.
Qed.

(** *** The invariant, operation by operation *)

Lemma registry_ok_start latency w : registry_ok (start latency w).
Proof. split; intros k n Hin; unfold registered, bucket in Hin; simpl in Hin;
  rewrite lookup_empty in Hin; by apply elem_of_nil in Hin. Qed.

(** A change that keeps the buckets, the path fields and the allocation
    pointer keeps the invariant. *)
Lemma registry_ok_frame st st' :
  same_registry st st' → registry_ok st → registry_ok st'.
Proof.
  intros (Hn & Hp & Hx) [Hinv Hlt].
  unfold registry_ok, registry_inv, registered, getRealPath in *.
  rewrite Hn, Hx. split; intros k n Hin; [rewrite Hp|]; eauto.
Qed.

Lemma same_registry_refl st : same_registry st st.
Proof. by repeat split. Qed.

Lemma same_registry_trans st1 st2 st3 :
  same_registry st1 st2 → same_registry st2 st3 → same_registry st1 st3.
Proof.
  intros (H1 & H2 & H3) (H4 & H5 & H6). repeat split.
  - by rewrite H4.
  - intros n. by rewrite H5.
  - by rewrite H6.
Qed.

Lemma same_registry_onWorld c st : same_registry st (onWorld c st).2.
Proof. unfold onWorld. by destruct (c (world st)). Qed.

Lemma same_registry_reopen r st : same_registry st (reopen r st).2.
Proof. unfold reopen. by repeat case_match. Qed.

Lemma same_registry_set_flushers n fl st : same_registry st (set_flushers n fl st).
Proof.
  repeat split. intros m. simpl.
  destruct (decide (n = m)) as [->|?];
    [by rewrite fn_lookup_insert|by rewrite fn_lookup_insert_ne].
Qed.

Lemma same_registry_rememberHandle n h st : same_registry st (rememberHandle n h st).
Proof. apply same_registry_set_flushers. Qed.

Lemma same_registry_forgetHandle n h st : same_registry st (forgetHandle n h st).
Proof.
  unfold forgetHandle. case_match;
    [apply same_registry_set_flushers|apply same_registry_refl].
Qed.

Lemma same_registry_moveAllxattrs from to st : same_registry st (moveAllxattrs from to st).
Proof. unfold moveAllxattrs. by repeat case_match. Qed.

Lemma registry_ok_allocNode nd st :
  registry_ok st → registry_ok (allocNode nd st).2 ∧ (allocNode nd st).1 < nnext (allocNode nd st).2.
Proof.
  intros [Hinv Hlt]. unfold registry_ok, registry_inv, registered, getRealPath in *.
  simpl. split; [split|lia]; intros k n Hin.
  - rewrite fn_lookup_insert_ne; [eauto|]. apply Hlt in Hin. lia.
  - apply Hlt in Hin. lia.
Qed.

Lemma registry_ok_newNode n st :
  n < nnext st → registry_ok st → registry_ok (newNode n st).
Proof.
  intros Hn [Hinv Hlt]. unfold registry_ok, registry_inv, registered, getRealPath in *.
  unfold newNode. simpl.
  split; intros k m; rewrite bucket_insert; case_decide as E; subst;
    rewrite ?elem_of_app, ?list_elem_of_singleton; intros Hin.
  - destruct Hin as [Hin| ->]; eauto.
  - eauto.
  - destruct Hin as [Hin| ->]; eauto.
  - eauto.
Qed.

Lemma registry_ok_nodeRenamed oldPath newPath st :
  registry_ok st → registry_ok (nodeRenamed oldPath newPath st).
Proof.
  intros [Hinv Hlt]. unfold registry_ok, registry_inv, registered, getRealPath in *.
  destruct (nodeRenamed_frame oldPath newPath st) as (_ & _ & _ & _ & -> & _).
  split; intros k n; rewrite nodeRenamed_bucket.
  - rewrite nodeRenamed_node, nodeRenamed_bucket.
    destruct (decide (k = oldPath)) as [->|Hko]; [by intros ?%elem_of_nil|].
    destruct (decide (k = newPath)) as [->|Hkn].
    + intros Hin. rewrite (decide_False (P := newPath = oldPath)) by done.
      rewrite (decide_True (P := newPath = newPath)) by done.
      by rewrite decide_True by done.
    + intros Hin. pose proof (Hinv _ _ Hin) as Hp.
      destruct (decide (newPath = oldPath)) as [->|Hno].
      * rewrite decide_False; [done|]. by intros ?%elem_of_nil.
      * rewrite (decide_True (P := newPath = newPath)) by done.
        rewrite decide_False; [done|].
        intros [H1|H1]%elem_of_app; apply Hinv in H1; congruence.
  - repeat case_decide; subst; rewrite ?elem_of_app; intros Hin;
      [by apply elem_of_nil in Hin|destruct Hin|]; eauto.
Qed.

Lemma forgetNode_bucket n st k :
  bucket (nodes (fs (forgetNode n st))) k ⊆ bucket (nodes (fs st)) k.
Proof.
  unfold forgetNode.
  destruct (nodes (fs st) !! realPath (nstore st n)) as [l|] eqn:Hl; [|done].
  apply bucket_lookup in Hl.
  assert (∀ i j, take i l ++ drop j l ⊆ l) as Hsub.
  { intros i j x [?|?]%elem_of_app;
      [by eapply subseteq_take|by eapply subseteq_drop]. }
  repeat case_match; simpl;
    rewrite ?bucket_delete, ?bucket_insert; case_decide; subst;
    try done; apply list_subseteq_nil.
Qed.

Lemma forgetNode_frame n st :
  let st' := forgetNode n st in
  nstore st' = nstore st ∧ nnext st' = nnext st ∧ xattrs (fs st') = xattrs (fs st) ∧
  latency (fs st') = latency (fs st) ∧ inMemoryXattr (fs st') = inMemoryXattr (fs st) ∧
  world st' = world st.
Proof. unfold forgetNode. by repeat case_match. Qed.

Lemma registry_ok_forgetNode n st :
  registry_ok st → registry_ok (forgetNode n st).
Proof.
  intros [Hinv Hlt]. unfold registry_ok, registry_inv, registered, getRealPath in *.
  destruct (forgetNode_frame n st) as (-> & -> & _).
  split; intros k m Hin; apply (forgetNode_bucket n st k m) in Hin; eauto.
Qed.

Lemma registry_ok_regStep st op : registry_ok st → registry_ok (regStep st op).
Proof.
  intros Hok. destruct op as [nd|o p|n]; simpl.
  - apply registry_ok_newNode; by apply (registry_ok_allocNode nd st).
  - by apply registry_ok_nodeRenamed.
  - by apply registry_ok_forgetNode.
Qed.

Lemma registry_ok_register nd st :
  registry_ok st →
  registry_ok (newNode (allocNode nd st).1 (allocNode nd st).2).
Proof. intros Hok. apply registry_ok_newNode; by apply (registry_ok_allocNode nd st). Qed.

(** A call into the outside world: its result by cases, with the fact
    that it left the registry alone. *)
Ltac world_step :=
  match goal with
  | |- context [onWorld ?c ?s] =>
    let Hr := fresh "Hr" in
    pose proof (same_registry_onWorld c s) as Hr;
    destruct (onWorld c s) as [[?|] ?]; simpl in *
  | |- context [reopen ?r ?s] =>
    let Hr := fresh "Hr" in
    pose proof (same_registry_reopen r s) as Hr;
    destruct (reopen r s) as [[?|?] ?]; simpl in *
  end.

(** The invariant carried over a change that left the registry alone. *)
Ltac framed := eapply registry_ok_frame; [|eassumption]; try eassumption.

Lemma registry_ok_callStep st c : registry_ok st → registry_ok (callStep st c).
Proof.
  intros Hok. destruct c; cbn [callStep].
  - by apply registry_ok_register.
  - unfold Node_Lookup. destruct (negb _); [done|].
    destruct (os_Stat _ _) as [e|fi]; [done|].
    by apply (registry_ok_register (mkNode _ _ _) st).
  - unfold Node_Open. world_step; framed.
    eapply same_registry_trans; [eassumption|].
    eapply same_registry_trans; [|apply same_registry_set_flushers]. done.
  - unfold Node_Create. world_step; [framed|].
    apply registry_ok_newNode; [simpl; lia|].
    eapply registry_ok_frame; [apply same_registry_set_flushers|].
    match goal with |- registry_ok (mkState _ (<[_ := ?nd]> _) _ (<[_ := ?h]> _) _ _) =>
      match goal with s1 : State |- _ =>
        change (registry_ok (allocNode nd (allocHandle h s1).2).2) end end.
    apply registry_ok_allocNode. framed.
  - unfold Node_Mkdir. world_step; [framed|].
    match goal with s1 : State |- _ => apply (registry_ok_register _ s1) end. framed.
  - unfold Node_Remove. world_step; [framed|].
    eapply registry_ok_frame; [apply same_registry_moveAllxattrs|]. framed.
  - unfold Node_Fsync. case_match; [done|].
    eapply registry_ok_frame; [apply same_registry_onWorld|done].
  - unfold Node_Setattr. by repeat case_match.
  - unfold Node_Rename. world_step; [framed|].
    apply registry_ok_nodeRenamed.
    eapply registry_ok_frame; [apply same_registry_moveAllxattrs|]. framed.
  - unfold Node_Setxattr. by case_match.
  - unfold Node_Removexattr. by repeat case_match.
  - by apply registry_ok_forgetNode.
  - rewrite Handle_Flush_state.
    eapply registry_ok_frame; [apply same_registry_onWorld|done].
  - unfold Handle_ReadDirAll. cbv zeta.
    destruct (File_Readdir _ _) as [[fis [e|]] w1]; [done|].
    world_step; [by eapply (registry_ok_frame st)|].
    world_step; [|case_match; simpl];
      (eapply (registry_ok_frame st); [|done]);
      (eapply same_registry_trans; eassumption).
  - rewrite Handle_Release_state.
    eapply registry_ok_frame; [apply same_registry_onWorld|].
    case_match; [|done].
    eapply registry_ok_frame; [apply same_registry_forgetHandle|done].
Qed.

Lemma registry_ok_run ops st : registry_ok st → registry_ok (run ops st).
Proof.
  revert st. induction ops as [|[c|r] ops IH]; intros st Hok; [done|..];
    apply IH; [by apply registry_ok_callStep|by apply registry_ok_regStep].
Qed.

End Registry.

Section RegistryClaims.
Context `{U : Underlying}.

Lemma registry_inv_single (st : State) : registry_inv st → registry_single st.
Proof. intros Hinv k1 k2 n H1 H2. apply Hinv in H1, H2. congruence. Qed.

(** C2. In every state reached from [NewFS] by method calls and by the
    registry operations [newNode] (on a Node just made), [nodeRenamed] and
    [forgetNode] on any arguments, every Node in the registry is in the
    bucket of its own [realPath], and no Node is in the buckets of two
    keys. *)
Theorem registry_invariant (latency : Z) (w : World) (ops : list (Call + RegOp)) :
  registry_inv (run ops (start latency w)) ∧
  registry_single (run ops (start latency w)).
Proof.
  assert (registry_inv (run ops (start latency w))) as Hinv.
  { apply registry_ok_run, registry_ok_start. }
  split; [done|by apply registry_inv_single].
Qed.

End RegistryClaims.

(** ** Rename *)

Section Rename.
Context `{U : Underlying}.
Implicit Types (st : State) (n m : nat) (k p q : string).

Lemma moveAllxattrs_xattrsAt from to st p :
  xattrsAt p (fs (moveAllxattrs from to st)) =
  match xattrsAt from (fs st) with
  | Some x =>
    if decide (p = from) then None
    else if decide (p = to ∧ to ≠ EmptyString) then Some x
    else xattrsAt p (fs st)
  | None => xattrsAt p (fs st)
  end.
Proof.
  unfold moveAllxattrs. destruct (xattrsAt from (fs st)) as [x|] eqn:Hx; [|done].
  unfold xattrsAt. simpl.
  destruct (decide (p = from)) as [->|Hpf]; [by rewrite lookup_insert_eq|].
  rewrite lookup_insert_ne by done.
  destruct (decide (to ≠ EmptyString)) as [Ht|Ht].
  - destruct (decide (p = to)) as [->|Hpt].
    + rewrite lookup_insert_eq. by rewrite decide_True.
    + rewrite lookup_insert_ne by done. rewrite decide_False; [done|]. by intros [].
  - rewrite decide_False; [done|]. by intros [].
Qed.

Lemma moveAllxattrs_frame from to st :
  let st' := moveAllxattrs from to st in
  nodes (fs st') = nodes (fs st) ∧ nstore st' = nstore st ∧ nnext st' = nnext st ∧
  inMemoryXattr (fs st') = inMemoryXattr (fs st) ∧ latency (fs st') = latency (fs st) ∧
  rootPath (fs st') = rootPath (fs st) ∧ world st' = world st.
Proof. unfold moveAllxattrs. by repeat case_match. Qed.

(** What a call of [Node.Rename] does, by the result of [os.Rename]. *)
Lemma Node_Rename_cases st n req newDir :
  let np := filepath_Join (getRealPath newDir st) (rn_NewName req) in
  let op := filepath_Join (getRealPath n st) (rn_OldName req) in
  Node_Rename n req newDir st =
  match os_Rename op np (world st) with
  | (None, w) => (None, nodeRenamed op np (moveAllxattrs op np (set_world w st)))
  | (Some e, w) => (Some e, set_world w st)
  end.
Proof. unfold Node_Rename, onWorld. by repeat case_match; simplify_eq. Qed.

Lemma Node_Rename_success st n req newDir st' :
  let np := filepath_Join (getRealPath newDir st) (rn_NewName req) in
  let op := filepath_Join (getRealPath n st) (rn_OldName req) in
  Node_Rename n req newDir st = (None, st') →
  ∃ w, os_Rename op np (world st) = (None, w) ∧
       st' = nodeRenamed op np (moveAllxattrs op np (set_world w st)).
Proof.
  intros np op. rewrite Node_Rename_cases. fold np op.
  destruct (os_Rename op np (world st)) as [[e|] w]; intros [= <-]; eauto.
Qed.


(** C3. When [os.Rename] fails, [Node.Rename] returns its error and runs
    neither migration: the attribute store, the registry and the Nodes are
    as before.  The migrations run only on the state in which the
    underlying rename has succeeded. *)
Theorem Rename_failure_no_migration st n req newDir :
  let np := filepath_Join (getRealPath newDir st) (rn_NewName req) in
  let op := filepath_Join (getRealPath n st) (rn_OldName req) in
  (∀ e w, os_Rename op np (world st) = (Some e, w) →
     Node_Rename n req newDir st = (Some e, set_world w st) ∧
     xattrs (fs (Node_Rename n req newDir st).2) = xattrs (fs st) ∧
     nodes (fs (Node_Rename n req newDir st).2) = nodes (fs st) ∧
     nstore (Node_Rename n req newDir st).2 = nstore st) ∧
  (∀ w, os_Rename op np (world st) = (None, w) →
     Node_Rename n req newDir st =
     (None, nodeRenamed op np (moveAllxattrs op np (set_world w st)))).
Proof.
  intros np op. rewrite Node_Rename_cases. fold np op.
  split; intros; by repeat case_match; simplify_eq.
Qed.

(** The state after a successful [Node.Rename] of [op] to [np]. *)
Lemma renamed_state st w op np :
  let st' := nodeRenamed op np (moveAllxattrs op np (set_world w st)) in
  (∀ k, bucket (nodes (fs st')) k =
        if decide (k = op) then []
        else if decide (k = np)
             then bucket (nodes (fs st)) np ++ bucket (nodes (fs st)) op
             else bucket (nodes (fs st)) k) ∧
  (∀ m, nstore st' m =
        if decide (m ∈ bucket (nodes (fs st')) np)
        then mkNode np (isDir (nstore st m)) (flushers (nstore st m))
        else nstore st m) ∧
  (∀ p, xattrsAt p (fs st') = xattrsAt p (fs (moveAllxattrs op np st))) ∧
  inMemoryXattr (fs st') = inMemoryXattr (fs st).
Proof.
  intros st'. subst st'.
  destruct (nodeRenamed_frame op np (moveAllxattrs op np (set_world w st)))
    as (Hx & _ & Hf & _).
  destruct (moveAllxattrs_frame op np (set_world w st)) as (Hn & Hs & _ & Hf' & _).
  split_and!.
  - intros k. rewrite nodeRenamed_bucket. by rewrite Hn.
  - intros m. rewrite nodeRenamed_node. by rewrite Hs.
  - intros p. unfold xattrsAt at 1. rewrite Hx.
    change (xattrsAt p (fs (moveAllxattrs op np (set_world w st))) =
            xattrsAt p (fs (moveAllxattrs op np st))).
    by rewrite !moveAllxattrs_xattrsAt.
  - by rewrite Hf, Hf'.
Qed.

(** C1, as the code has it. After [Node.Rename] has renamed [op] to a
    different path [np]: every Node that was registered under [op],
    whatever the number of its aliases, reports [np] and is registered
    under [np]; and with in-memory attributes enabled, Getxattr on a Node
    at [op] answers ENODATA; if an attribute map was stored under [op]
    (and [np] is not the empty path), an empty one included, Getxattr on a
    Node at [np] answers exactly from the attribute set that was stored
    under [op]; but if none was, [moveAllxattrs] does nothing, and Getxattr
    on a Node at [np] answers from what was stored under [np] before: the
    attributes of the file the rename has replaced, which were never
    stored under [op]. *)
Theorem Rename_migrates st n req newDir st' :
  let np := filepath_Join (getRealPath newDir st) (rn_NewName req) in
  let op := filepath_Join (getRealPath n st) (rn_OldName req) in
  Node_Rename n req newDir st = (None, st') →
  op ≠ np →
  (∀ m, registered m op st → getRealPath m st' = np ∧ registered m np st') ∧
  (inMemoryXattr (fs st) = true →
   (∀ m name, getRealPath m st' = op → Node_Getxattr m name st' = inl ENODATA) ∧
   (xattrsAt op (fs st) ≠ None → np ≠ EmptyString →
    ∀ m name, getRealPath m st' = np →
      Node_Getxattr m name st' = answer (attrsAt op st) name) ∧
   (xattrsAt op (fs st) = None →
    ∀ m name, getRealPath m st' = np →
      Node_Getxattr m name st' = answer (attrsAt np st) name)).
Proof.
  intros np op Hren Hne.
  apply Node_Rename_success in Hren as (w & _ & ->). fold np op.
  destruct (renamed_state st w op np) as (Hb & Hs & Hx & Hf).
  split; [|intros Hflag; split_and!].
  - intros m Hm. unfold registered, getRealPath in *.
    assert (m ∈ bucket (nodes (fs (nodeRenamed op np
              (moveAllxattrs op np (set_world w st))))) np) as Hin.
    { rewrite Hb. rewrite decide_False by done. rewrite decide_True by done.
      apply elem_of_app. by right. }
    split; [|done]. rewrite Hs. by rewrite decide_True.
  - intros m name Hm. unfold Node_Getxattr. rewrite Hf, Hflag. simpl.
    rewrite Hm, Hx, moveAllxattrs_xattrsAt.
    destruct (xattrsAt op (fs st)) eqn:E; [by rewrite decide_True|done].
  - intros Hsome Hnp m name Hm. unfold Node_Getxattr. rewrite Hf, Hflag. simpl.
    rewrite Hm, Hx, moveAllxattrs_xattrsAt. unfold attrsAt, answer.
    destruct (xattrsAt op (fs st)) as [x|] eqn:E; [|done].
    rewrite decide_False by done. by rewrite decide_True.
  - intros Hnone m name Hm. unfold Node_Getxattr. rewrite Hf, Hflag. simpl.
    rewrite Hm, Hx, moveAllxattrs_xattrsAt, Hnone. unfold attrsAt, answer.
    by destruct (xattrsAt np (fs st)) as [x|].
Qed.


End Rename.

(** ** Configuration *)

Section Config.
Context `{U : Underlying}.
Implicit Types (st : State).

Lemma same_config_refl st : same_config st st.
Proof. by repeat split. Qed.

Lemma same_config_trans st1 st2 st3 :
  same_config st1 st2 → same_config st2 st3 → same_config st1 st3.
Proof. intros (?&?&?) (?&?&?). repeat split; congruence. Qed.

Lemma same_config_nodeRenamed oldPath newPath st :
  same_config st (nodeRenamed oldPath newPath st).
Proof. destruct (nodeRenamed_frame oldPath newPath st) as (_&?&?&?&_). by repeat split. Qed.

Lemma same_config_regStep st op : same_config st (regStep st op).
Proof.
  destruct op; simpl; [done|apply same_config_nodeRenamed|].
  unfold forgetNode. by repeat case_match.
Qed.

Lemma same_config_callStep st c : same_config st (callStep st c).
Proof.
  destruct c; cbn [callStep];
    try (unfold Root, Node_Lookup, Node_Open, Node_Create, Node_Mkdir, Node_Remove,
           Node_Fsync, Node_Setattr, Node_Setxattr, Node_Removexattr, Node_Forget,
           Handle_Flush, Handle_ReadDirAll, Handle_Release, forgetNode, forgetHandle,
           moveAllxattrs, reopen, onWorld;
         by repeat (case_match; simplify_eq/=)).
  { done. }
  unfold Node_Rename, onWorld.
  destruct (os_Rename _ _ _) as [[e|] w]; [done|]. simpl.
  eapply same_config_trans; [|apply same_config_nodeRenamed].
  unfold moveAllxattrs. by repeat case_match.
Qed.

Lemma same_config_run ops st : same_config st (run ops st).
Proof.
  revert st. induction ops as [|[c|r] ops IH]; intros st; [apply same_config_refl|..];
    (eapply same_config_trans; [|apply IH]);
    [apply same_config_callStep|apply same_config_regStep].
Qed.

(** C5, as the code has it. [NewFS] receives the latency and nothing else;
    the flag the four attribute methods read is off in the [FS] it returns
    and stays off, so that in every state reached from it each of them
    fails with ENOTSUP.  The latency stays the one given to [NewFS]. *)
Theorem NewFS_supplies_latency_only (lat : Z) (w : World) (ops : list (Call + RegOp))
    (seeds : list nat) (n : nat) (name : string) (value : list byte)
    (req : ListxattrRequest) (resp : list string) :
  latency (fs (run ops (start lat w))) = lat ∧
  inMemoryXattr (fs (run ops (start lat w))) = false ∧
  Node_Getxattr n name (run ops (start lat w)) = inl ENOTSUP ∧
  (Node_Setxattr n name value (run ops (start lat w))).1 = Some ENOTSUP ∧
  (Node_Listxattr seeds n req resp (run ops (start lat w))).1 = Some ENOTSUP ∧
  (Node_Removexattr n name (run ops (start lat w))).1 = Some ENOTSUP.
Proof.
  destruct (same_config_run ops (start lat w)) as (Hl & Hf & _).
  simpl in Hl, Hf.
  unfold Node_Getxattr, Node_Setxattr, Node_Listxattr, Node_Removexattr.
  rewrite Hl, Hf. by repeat split.
Qed.

End Config.

(** ** Access *)

Section Access.
Context `{U : Underlying}.

Lemma land_subset (a b : Z) : Z.land a b = a ↔ bits_subset a b.
Proof.
  split.
  - intros H i Hi Ha. rewrite <- H in Ha. rewrite Z.land_spec in Ha.
    by apply andb_true_iff in Ha as [_ ?].
  - intros H. apply Z.bits_inj'. intros i Hi. rewrite Z.land_spec.
    destruct (Z.testbit a i) eqn:Ha; [|done]. by rewrite (H i Hi Ha).
Qed.

Lemma uint32_small (z : Z) : (0 ≤ z < 2 ^ 32)%Z → uint32 z = z.
Proof. intros. unfold uint32. by apply Z.mod_small. Qed.

(** C8. When the path of the Node stats, [Node.Access] succeeds exactly
    when every bit of the requested mask is set in the mode shifted right
    by 6 (bit [i] of the mask against bit [i + 6] of the mode), and fails
    with EPERM otherwise. *)
Theorem Access_owner_bits (st : State) (n : nat) (mask : Z) (fi : FileInfo) :
  os_Stat (getRealPath n st) (world st) = inr fi →
  (0 ≤ fi_Mode fi < 2 ^ 32)%Z →
  (Node_Access n mask st = None ↔ bits_subset mask (Z.shiftr (fi_Mode fi) 6)) ∧
  (¬ bits_subset mask (Z.shiftr (fi_Mode fi) 6) → Node_Access n mask st = Some EPERM) ∧
  (bits_subset mask (Z.shiftr (fi_Mode fi) 6) ↔
   ∀ i, (0 ≤ i)%Z → Z.testbit mask i = true → Z.testbit (fi_Mode fi) (i + 6) = true).
Proof.
  intros Hstat Hmode. unfold Node_Access. rewrite Hstat.
  assert (uint32 (Z.shiftr (fi_Mode fi) 6) = Z.shiftr (fi_Mode fi) 6) as ->.
  { apply uint32_small. rewrite Z.shiftr_div_pow2 by lia. split.
    - apply Z.div_pos; lia.
    - apply Z.div_lt_upper_bound; lia. }
  rewrite <- land_subset.
  destruct (Z.eqb_spec (Z.land mask (Z.shiftr (fi_Mode fi) 6)) mask) as [E|E]; simpl.
  - split_and!; [done|done|].
    rewrite land_subset. unfold bits_subset.
    split; intros H i Hi Hm; specialize (H i Hi Hm);
      by rewrite Z.shiftr_spec in * by done.
  - split_and!; [split; [done|by intros ?]|done|].
    rewrite land_subset. unfold bits_subset.
    split; intros H i Hi Hm; specialize (H i Hi Hm);
      by rewrite Z.shiftr_spec in * by done.
Qed.

End Access.

(** ** Directory listings *)

Section ReadDir.
Context `{U : Underlying}.

Lemma getDirentsFrom_panics (fis : list FileInfo) (dirs : list Dirent) :
  (∃ fi, fi ∈ fis ∧ unsupported fi = true) →
  getDirentsFrom dirs fis = Panicked "unsupported dirent type".
Proof.
  revert dirs. induction fis as [|fi fis IH]; intros dirs (x & Hin & Hx).
  - by apply elem_of_nil in Hin.
  - simpl. apply elem_of_cons in Hin as [->|Hin].
    + unfold unsupported in Hx. apply andb_true_iff in Hx as [H1 H2].
      apply negb_true_iff in H1, H2. by rewrite H1, H2.
    + destruct (FileInfo_IsDir fi); [apply IH; eauto|].
      destruct (FileMode_IsRegular (fi_Mode fi)); [apply IH; eauto|done].
Qed.

Lemma getDirentsFrom_returns (fis : list FileInfo) (dirs : list Dirent) :
  (∀ fi, fi ∈ fis → unsupported fi = false) →
  ∃ ds, getDirentsFrom dirs fis = Returned (dirs ++ ds) ∧ length ds = length fis.
Proof.
  revert dirs. induction fis as [|fi fis IH]; intros dirs Hall.
  - exists []. by rewrite app_nil_r.
  - simpl. pose proof (Hall fi ltac:(left)) as Hfi. unfold unsupported in Hfi.
    assert (∀ x, x ∈ fis → unsupported x = false) as Hall'
      by (intros x Hx; apply Hall; by right).
    destruct (FileInfo_IsDir fi); simpl in Hfi.
    + destruct (IH (dirs ++ [mkDirent (fi_Ino fi) (fi_Name fi) DT_Dir]) Hall')
        as (ds & -> & Hl).
      eexists (_ :: ds). rewrite <- app_assoc. simpl. split; [done|by rewrite Hl].
    + destruct (FileMode_IsRegular (fi_Mode fi)); [|done].
      destruct (IH (dirs ++ [mkDirent (fi_Ino fi) (fi_Name fi) DT_File]) Hall')
        as (ds & -> & Hl).
      eexists (_ :: ds). rewrite <- app_assoc. simpl. split; [done|by rewrite Hl].
Qed.

Lemma land_low_high (a c : Z) : (0 ≤ a < 2 ^ 19)%Z → Z.land a (Z.shiftl c 19) = 0%Z.
Proof.
  intros Ha. destruct (decide (a = 0%Z)) as [->|Hne]; [done|].
  apply Z.bits_inj'. intros i Hi. rewrite Z.land_spec, Z.bits_0.
  destruct (decide (i < 19)%Z).
  - rewrite (Z.shiftl_spec_low c 19 i) by done. apply andb_false_r.
  - rewrite (Z.bits_above_log2 a i); [done|lia|].
    assert (Z.log2 a < 19)%Z by (apply Z.log2_lt_pow2; lia). lia.
Qed.

(** Symbolic links, devices, sockets and FIFOs are such entries, whatever
    their permission bits. *)
Lemma unsupported_modes (name : string) (perm size mtime ino uid gid : Z) :
  (0 ≤ perm < 512)%Z →
  Forall (λ ty, unsupported (mkFileInfo name size (Z.lor ty perm) mtime ino uid gid) = true)
         [ModeSymlink; ModeDevice; Z.lor ModeDevice ModeCharDevice; ModeSocket; ModeNamedPipe].
Proof.
  intros Hp.
  assert (Z.land perm ModeDir = 0%Z) as Hpd.
  { change ModeDir with (Z.shiftl 4096 19). apply land_low_high. lia. }
  assert (Z.land perm ModeType = 0%Z) as Hpt.
  { change ModeType with (Z.shiftl 4581 19). apply land_low_high. lia. }
  repeat constructor;
    unfold unsupported, FileInfo_IsDir, FileMode_IsDir, FileMode_IsRegular; simpl fi_Mode;
    rewrite !Z.land_lor_distr_l, Hpd, Hpt; done.
Qed.

Lemma logName_not_nil {A} (f : File) (r : outcome A) : f ≠ nilFile → logName f r = r.
Proof. intros Hf. unfold logName. by rewrite decide_False. Qed.

Lemma logName_nil {A} (r : outcome A) : logName nilFile r = Panicked nilDereference.
Proof. unfold logName. by rewrite decide_True. Qed.

(** What a re-open leaves of the state, and what it returns. *)
Lemma reopen_inr r st f st' :
  reopen r st = (inr f, st') →
  f ≠ nilFile ∧ hstore st' = hstore st ∧ nstore st' = nstore st ∧ fs st' = fs st.
Proof.
  unfold reopen. destruct r as [n flags perm|name flags perm];
    destruct (os_OpenFile _ _ _ _) as [res w] eqn:Ho; intros [= -> <-];
    (split; [by eapply os_OpenFile_not_nil|done]).
Qed.


End ReadDir.

(** ** Fsync *)

Section Fsync.
Context `{U : Underlying}.

Lemma shuffle_Permutation {A} (seeds : list nat) (l : list A) : shuffle seeds l ≡ₚ l.
Proof.
  revert l. induction seeds as [|s seeds IH]; intros l; [done|]. simpl.
  destruct (l !! (s mod length l)) as [x|] eqn:E; [|done].
  rewrite IH. symmetry. by apply delete_Permutation.
Qed.

Lemma elem_of_rangeKeys `{Countable K} {V} (seeds : list nat) (m : gmap K V) (k : K) :
  k ∈ rangeKeys seeds m ↔ k ∈ dom m.
Proof.
  unfold rangeKeys. rewrite shuffle_Permutation.
  rewrite elem_of_dom, list_elem_of_fmap. split.
  - intros ([k' v] & -> & Hin). apply elem_of_map_to_list in Hin. by exists v.
  - intros [v Hv]. exists (k, v). split; [done|]. by apply elem_of_map_to_list.
Qed.

Lemma rangeKeys_empty `{Countable K} {V} (seeds : list nat) :
  rangeKeys seeds (∅ : gmap K V) = [].
Proof.
  unfold rangeKeys. rewrite map_to_list_empty. apply Permutation_nil_r.
  apply shuffle_Permutation.
Qed.

(** Any key can come first. *)
Lemma rangeKeys_first `{Countable K} {V} (m : gmap K V) (k : K) :
  k ∈ dom m → ∃ seeds l, rangeKeys seeds m = k :: l.
Proof.
  intros Hk. apply (elem_of_rangeKeys []) in Hk. unfold rangeKeys in *. simpl in Hk.
  apply list_elem_of_lookup in Hk as [i Hi].
  pose proof (lookup_lt_Some _ _ _ Hi) as Hlt.
  exists [i]. eexists. simpl. rewrite Nat.mod_small by done. by rewrite Hi.
Qed.

(** C6, amended. With no Handle on the Node, [Node.Fsync] fails with EIO.
    With at least one, it returns what [Sync] on one of the Node's Handles
    returns: [nil] when that sync succeeds, its error otherwise.  Which
    Handle is the runtime's choice, and any of them can be the one.
    [Handle.Flush] on that Handle does the same sync, and returns the same
    when the Handle holds a file; on a Handle that holds the [nil] file it
    panics in its deferred log, where [Fsync] returns the error of the
    sync. *)
Theorem Fsync_delegates (st : State) (n : nat) :
  (handlesOf n st = ∅ → ∀ seeds, Node_Fsync seeds n st = (Some EIO, st)) ∧
  (handlesOf n st ≠ ∅ → ∀ seeds, ∃ h,
     h ∈ dom (handlesOf n st) ∧
     Node_Fsync seeds n st = onWorld (File_Sync (h_f (hstore st h))) st) ∧
  (∀ h, h ∈ dom (handlesOf n st) →
     ∃ seeds, Node_Fsync seeds n st = onWorld (File_Sync (h_f (hstore st h))) st) ∧
  (∀ h, let synced := onWorld (File_Sync (h_f (hstore st h))) st in
     (Handle_Flush h st).2 = synced.2 ∧
     (h_f (hstore st h) ≠ nilFile → Handle_Flush h st = (Returned synced.1, synced.2)) ∧
     (h_f (hstore st h) = nilFile → (Handle_Flush h st).1 = Panicked nilDereference)).
Proof.
  split_and!.
  - unfold Node_Fsync. fold (handlesOf n st). intros -> seeds. by rewrite rangeKeys_empty.
  - unfold Node_Fsync. fold (handlesOf n st). intros Hne seeds.
    destruct (rangeKeys seeds (handlesOf n st)) as [|h l] eqn:E.
    + exfalso. apply Hne. apply map_eq. intros h. rewrite lookup_empty.
      apply not_elem_of_dom. rewrite <- (elem_of_rangeKeys seeds), E. apply not_elem_of_nil.
    + exists h. split; [|done]. rewrite <- (elem_of_rangeKeys seeds), E. by left.
  - unfold Node_Fsync. fold (handlesOf n st).
    intros h Hh. destruct (rangeKeys_first _ _ Hh) as (seeds & l & E).
    exists seeds. by rewrite E.
  - intros h. cbv zeta. unfold Handle_Flush.
    destruct (onWorld (File_Sync (h_f (hstore st h))) st) as [err st'] eqn:Ho.
    assert (hstore st' = hstore st) as Hh.
    { unfold onWorld in Ho. destruct (File_Sync _ _). by simplify_eq. }
    rewrite Hh. simpl. split_and!; [done| |].
    + intros Hf. by rewrite logName_not_nil.
    + intros ->. apply logName_nil.
Qed.

End Fsync.

(** ** Listxattr *)

Section Listxattr.
Context `{U : Underlying}.
Implicit Types (st : State) (x : gmap string (list byte)).

(** The order of the names does not depend on the order in which [range]
    yields them. *)
Lemma sorted_rangeKeys seeds x :
  merge_sort String.le (rangeKeys seeds x) = sortedNames x.
Proof.
  apply (Sorted_unique String.le); try apply Sorted_merge_sort; try apply _.
  unfold sortedNames, rangeKeys. by rewrite !merge_sort_Permutation, shuffle_Permutation.
Qed.

Lemma sortedNames_spec x :
  StronglySorted String.le (sortedNames x) ∧ NoDup (sortedNames x) ∧
  ∀ name, name ∈ sortedNames x ↔ is_Some (x !! name).
Proof.
  unfold sortedNames. split_and!.
  - apply StronglySorted_merge_sort; apply _.
  - rewrite merge_sort_Permutation. apply NoDup_fst_map_to_list.
  - intros name. rewrite merge_sort_Permutation.
    rewrite <- elem_of_dom. apply (elem_of_rangeKeys [] x name).
Qed.

Lemma limit_all size (l : list string) :
  size = 0%N ∨ length l ≤ N.to_nat size → limit size l = l.
Proof.
  unfold limit. intros [->|Hle]; [done|].
  case_match; [done|]. by apply take_ge.
Qed.

Lemma limit_nonempty size (l : list string) : l ≠ [] → limit size l ≠ [].
Proof.
  unfold limit. destruct (N.eqb_spec size 0) as [|Hs]; [done|].
  destruct l; [done|]. intros _. destruct (N.to_nat size) eqn:E; [lia|done].
Qed.

Lemma limit_take size (l : list string) : limit size l = take (length (limit size l)) l.
Proof.
  unfold limit. case_match.
  - by rewrite firstn_all.
  - rewrite length_take.
    destruct (decide (N.to_nat size ≤ length l)).
    + by rewrite Nat.min_l.
    + rewrite Nat.min_r by lia. by rewrite !take_ge by lia.
Qed.

Lemma Listxattr_one st n x seeds pos size resp :
  inMemoryXattr (fs st) = true →
  xattrsAt (getRealPath n st) (fs st) = Some x →
  Node_Listxattr seeds n (mkListxattrRequest size pos) resp st =
  (None, resp ++ limit size (drop (N.to_nat pos) (sortedNames x))).
Proof.
  intros Hflag Hx. unfold Node_Listxattr. rewrite Hflag, Hx. simpl.
  rewrite sorted_rangeKeys. set (names := sortedNames x).
  destruct (Z.leb_spec (Z.of_nat (length names)) (Z.of_N pos)) as [Hle|Hlt].
  - rewrite drop_ge by lia. unfold limit. rewrite take_nil.
    case_match; by rewrite app_nil_r.
  - set (rest := drop (N.to_nat pos) names).
    assert (0 < length rest) as Hrest by (subst rest; rewrite length_drop; lia).
    unfold limit. destruct (N.eqb_spec size 0) as [->|Hs]; simpl.
    + destruct (Z.ltb_spec 0 (Z.of_nat (length rest))); [|lia].
      by rewrite Nat2Z.id, firstn_all.
    + replace (Z.of_N size =? 0)%Z with false by (symmetry; apply Z.eqb_neq; lia).
      simpl. destruct (Z.ltb_spec (Z.of_nat (length rest)) (Z.of_N size)).
      * destruct (Z.ltb_spec 0 (Z.of_nat (length rest))); [|lia].
        rewrite Nat2Z.id, firstn_all. by rewrite take_ge by lia.
      * destruct (Z.ltb_spec 0 (Z.of_N size)); [|lia].
        by replace (Z.to_nat (Z.of_N size)) with (N.to_nat size) by lia.
Qed.

Lemma page_eq st n x seeds pos size :
  inMemoryXattr (fs st) = true →
  xattrsAt (getRealPath n st) (fs st) = Some x →
  page seeds n st pos size = limit size (drop (N.to_nat pos) (sortedNames x)).
Proof. intros Hflag Hx. unfold page. by rewrite (Listxattr_one st n x). Qed.

(** The pages of consecutive calls, put end to end, are a run of the sorted
    names from the first offset on; every call made before the end is
    reached adds at least one name. *)
Lemma pages_run st n x calls pos :
  inMemoryXattr (fs st) = true →
  xattrsAt (getRealPath n st) (fs st) = Some x →
  let got := concat (pages n st pos calls) in
  got = take (length got) (drop (N.to_nat pos) (sortedNames x)) ∧
  min (length calls) (length (sortedNames x) - N.to_nat pos) ≤ length got.
Proof.
  intros Hflag Hx. revert pos.
  induction calls as [|[size seeds] calls IH]; intros pos; [done|].
  cbn [pages concat]. cbv zeta. rewrite length_cons.
  rewrite (page_eq st n x) by done.
  set (rest := drop (N.to_nat pos) (sortedNames x)).
  set (pg := limit size rest).
  destruct (IH (pos + N.of_nat (length pg))%N) as [Hrun Hlen].
  rewrite N2Nat.inj_add, Nat2N.id in Hrun, Hlen.
  rewrite <- drop_drop in Hrun. fold rest in Hrun.
  set (got := concat (pages n st (pos + N.of_nat (length pg)) calls)) in *.
  split.
  - rewrite length_app. rewrite <- take_take_drop. f_equal; [apply limit_take|done].
  - rewrite length_app.
    destruct (decide (rest = [])) as [Hnil|Hne].
    + assert (length rest = 0) as Hl by by rewrite Hnil.
      subst rest. rewrite length_drop in Hl. lia.
    + pose proof (limit_nonempty size rest Hne) as Hpg. fold pg in Hpg.
      assert (0 < length pg) by (destruct pg; [done|simpl; lia]).
      assert (length (sortedNames x) - (N.to_nat pos + length pg) =
              length (sortedNames x) - N.to_nat pos - length pg) as Heq by lia.
      lia.
Qed.

(** C7. With in-memory attributes enabled and an attribute map [x] stored
    for the path of the Node: a call returns the names from the offset on,
    in the sorted order of all names, at most [size] of them and all that
    remain when [size] is zero or not less than what remains; that order is
    sorted, without repetition, holds exactly the names of [x] and does
    not depend on the iteration order of the map; repeated calls, each
    starting where the one before stopped, return a run of that order from
    its start, and the whole of it once as many calls were made as there
    are names; and from an offset at or past the number of names a call
    returns nothing. *)
Theorem Listxattr_pagination st n x :
  inMemoryXattr (fs st) = true →
  xattrsAt (getRealPath n st) (fs st) = Some x →
  (∀ seeds pos size resp,
     Node_Listxattr seeds n (mkListxattrRequest size pos) resp st =
     (None, resp ++ limit size (drop (N.to_nat pos) (sortedNames x)))) ∧
  (∀ size l, length (limit size l) ≤ N.to_nat size ∨ size = 0%N) ∧
  (∀ size l, size = 0%N ∨ length l ≤ N.to_nat size → limit size l = l) ∧
  (StronglySorted String.le (sortedNames x) ∧ NoDup (sortedNames x) ∧
   ∀ name, name ∈ sortedNames x ↔ is_Some (x !! name)) ∧
  (∀ calls, concat (pages n st 0 calls) =
            take (length (concat (pages n st 0 calls))) (sortedNames x)) ∧
  (∀ calls, length (sortedNames x) ≤ length calls →
            concat (pages n st 0 calls) = sortedNames x) ∧
  (∀ seeds pos size, (N.of_nat (length (sortedNames x)) ≤ pos)%N →
                     page seeds n st pos size = []).
Proof.
  intros Hflag Hx. refine (conj _ (conj _ (conj _ (conj _ (conj _ (conj _ _)))))).
  - intros. by apply Listxattr_one.
  - intros size l. unfold limit. destruct (N.eqb_spec size 0); [by right|left].
    rewrite length_take. lia.
  - apply limit_all.
  - apply sortedNames_spec.
  - intros calls. by destruct (pages_run st n x calls 0 Hflag Hx) as [H _].
  - intros calls Hlen. destruct (pages_run st n x calls 0 Hflag Hx) as [H Hmin].
    simpl in *. rewrite drop_0 in H. rewrite H. apply take_ge. lia.
  - intros seeds pos size Hpos. rewrite (page_eq st n x) by done.
    rewrite drop_ge by lia. unfold limit. rewrite take_nil. by case_match.
Qed.

End Listxattr.

(** ** Setattr *)

Section Setattr.
Context `{U : Underlying}.

(** C4, as the code has it. [Node.Setattr] fills the pair of timevals from
    the requested times and lets it go out of scope: the requested access
    and modification times reach no call of the method.  Unless the
    platform part treats the two requests differently, a request does what
    the same request with any other times does, to the file and to the
    returned attributes. *)
Theorem Setattr_ignores_times (st : State) (n : nat) (req : SetattrRequest)
    (attr : Attr) (atime mtime : Z) :
  setattrPlatformSpecific (getRealPath n st) (with_times req atime mtime) =
  setattrPlatformSpecific (getRealPath n st) req →
  Node_Setattr n (with_times req atime mtime) attr st = Node_Setattr n req attr st.
Proof.
  intros Hplatform. unfold Node_Setattr, setattrCalls, valid.
  cbn [with_times sa_Valid sa_Size sa_Mode sa_Uid sa_Gid].
  by rewrite Hplatform.
Qed.

End Setattr.

(** ** The properties on the in-memory file system *)

Section OnMemFS.
Import MemFS.

Lemma pair_fst_eq {A B} (p : A * B) (a : A) : p.1 = a → p = (a, p.2).
Proof. intros <-. by destruct p. Qed.

Lemma from_option_false {A} (o : option A) :
  from_option (λ _, true) false o = false → o = None.
Proof. by destruct o. Qed.

Lemma from_option_true {A} (o : option A) :
  from_option (λ _, true) false o = true → o ≠ None.
Proof. by destruct o. Qed.


Lemma registry_ok_initX lat w : registry_ok (initX lat w).
Proof.
  split; intros k n Hin; unfold registered, bucket in Hin; simpl in Hin;
    rewrite lookup_empty in Hin; by apply elem_of_nil in Hin.
Qed.

(** Node [2] of [a] was forgotten before the rename and stays at [a]; Node
    [1] is registered under [a].  First [a], which has [user.k], is renamed
    to the free path [c]: Node [1] reports [c], is registered there and
    reads [user.k]; Node [2], at [a], reads nothing.  Then [a], which has
    no attribute map, is renamed onto [b], which has [user.old]: Node [1]
    reports [b] and reads [user.old] there, which was never stored under
    [a]; Node [2], at [a], reads nothing. *)
Lemma Rename_migrates_witness :
  (let st' := (Node_Rename 0 (mkRenameRequest "a" "c") 0 st_attr_a_forgot).2 in
   getRealPath 1 st' = "c" ∧ registered 1 "c" st' ∧
   Node_Getxattr 1 "user.k" st' = inr value1 ∧
   Node_Getxattr 2 "user.k" st' = inl ENODATA) ∧
  (let st' := (Node_Rename 0 (mkRenameRequest "a" "b") 0 st_attr_b_forgot).2 in
   getRealPath 1 st' = "b" ∧ registered 1 "b" st' ∧
   Node_Getxattr 1 "user.old" st' = inr value2 ∧
   Node_Getxattr 2 "user.old" st' = inl ENODATA).
Proof.
  split; cbv zeta.
  - destruct (Rename_migrates st_attr_a_forgot 0 (mkRenameRequest "a" "c") 0
                (Node_Rename 0 (mkRenameRequest "a" "c") 0 st_attr_a_forgot).2)
      as (Hreg & Hx).
    + apply pair_fst_eq. vm_compute. reflexivity.
    + vm_compute. discriminate.
    + destruct (Hreg 1) as [Hpath Hin].
      { unfold registered.
        assert (bucket (nodes (fs st_attr_a_forgot))
                  (filepath_Join (getRealPath 0 st_attr_a_forgot) "a") = [1]) as Hb
          by (vm_compute; reflexivity).
        simpl rn_OldName. rewrite Hb. apply list_elem_of_here. }
      destruct Hx as (Hold & Hnew & _); [vm_compute; reflexivity|].
      split_and!.
      * exact Hpath.
      * exact Hin.
      * etrans; [apply Hnew|vm_compute; reflexivity].
        -- apply from_option_true. vm_compute. reflexivity.
        -- vm_compute. discriminate.
        -- exact Hpath.
      * apply Hold. vm_compute. reflexivity.
  - destruct (Rename_migrates st_attr_b_forgot 0 (mkRenameRequest "a" "b") 0
                (Node_Rename 0 (mkRenameRequest "a" "b") 0 st_attr_b_forgot).2)
      as (Hreg & Hx).
    + apply pair_fst_eq. vm_compute. reflexivity.
    + vm_compute. discriminate.
    + destruct (Hreg 1) as [Hpath Hin].
      { unfold registered.
        assert (bucket (nodes (fs st_attr_b_forgot))
                  (filepath_Join (getRealPath 0 st_attr_b_forgot) "a") = [1]) as Hb
          by (vm_compute; reflexivity).
        simpl rn_OldName. rewrite Hb. apply list_elem_of_here. }
      destruct Hx as (Hold & _ & Hnone); [vm_compute; reflexivity|].
      split_and!.
      * exact Hpath.
      * exact Hin.
      * etrans; [apply Hnone|vm_compute; reflexivity].
        -- apply from_option_false. vm_compute. reflexivity.
        -- exact Hpath.
      * apply Hold. vm_compute. reflexivity.
Defined.

(** On that state: both Nodes of [a] report [c], and [user.k] is read at
    [c] through either of them. *)
Lemma Rename_migrates_example :
  let st' := (Node_Rename 0 (mkRenameRequest "a" "c") 0 st_attr_a).2 in
  bucket (nodes (fs st_attr_a)) "a" = [1; 2] ∧
  getRealPath 1 st' = "c" ∧ getRealPath 2 st' = "c" ∧
  bucket (nodes (fs st')) "c" = [1; 2] ∧
  Node_Getxattr 1 "user.k" st_attr_a = inr value1 ∧
  Node_Getxattr 1 "user.k" st' = inr value1 ∧
  Node_Getxattr 2 "user.k" st' = inr value1 ∧
  fi_Ino <$> files (world st') !! "c" = Some 2%Z ∧
  os_Stat "a" (world st') = inl (OsError NotExist 2).
Proof. repeat split; vm_compute; reflexivity. Qed.

(** C1 fails on the code.  Renaming [a], which has no attribute, onto [b],
    which has [user.old]: the Node of [a] then reads [user.old] at [b], an
    attribute that was never stored under [a].  With an emptied map that is
    not [nil] under [a], the same rename clears the attributes of [b], as
    the claim says.  And renaming [a], which has [user.k], to itself: the
    rename succeeds and [user.k] is gone. *)
Lemma Rename_migrates_counterexample :
  (let r := Node_Rename 0 (mkRenameRequest "a" "b") 0 st_attr_b in
   r.1 = None ∧
   bucket (nodes (fs st_attr_b)) "a" = [1; 2] ∧
   from_option (λ _, true) false (xattrsAt "a" (fs st_attr_b)) = false ∧
   Node_Getxattr 1 "user.old" st_attr_b = inl ENODATA ∧
   getRealPath 1 r.2 = "b" ∧
   Node_Getxattr 1 "user.old" r.2 = inr value2) ∧
  (let r := Node_Rename 0 (mkRenameRequest "a" "b") 0 st_attr_b_emptied in
   r.1 = None ∧
   from_option (λ x, map_to_list x) [("nil", [])] (xattrsAt "a" (fs st_attr_b_emptied)) = [] ∧
   Node_Getxattr 1 "user.old" st_attr_b_emptied = inl ENODATA ∧
   Node_Getxattr 3 "user.old" st_attr_b_emptied = inr value2 ∧
   getRealPath 1 r.2 = "b" ∧
   Node_Getxattr 1 "user.old" r.2 = inl ENODATA) ∧
  (let r := Node_Rename 0 (mkRenameRequest "a" "a") 0 st_attr_a in
   r.1 = None ∧
   Node_Getxattr 1 "user.k" st_attr_a = inr value1 ∧
   getRealPath 1 r.2 = "a" ∧
   Node_Getxattr 1 "user.k" r.2 = inl ENODATA).
Proof. repeat split; vm_compute; reflexivity. Qed.


(** On that state the file itself has moved: [d/f] is gone from the
    underlying file system and [e/f] is there, while Node [5] and the
    attribute still say [d/f]. *)
Lemma Rename_leaves_descendants_example :
  let st' := (Node_Rename 0 (mkRenameRequest "d" "e") 0 st_attr_df).2 in
  os_Stat "d/f" (world st') = inl (OsError NotExist 2) ∧
  fi_Ino <$> (files (world st') !! "e/f") = Some 5%Z ∧
  getRealPath 5 st' = "d/f" ∧
  bucket (nodes (fs st')) "d/f" = [5] ∧
  Node_Getxattr 5 "user.k" st' = inr value1 ∧
  getRealPath 4 st' = "e".
Proof. repeat split; vm_compute; reflexivity. Qed.

Lemma triple_none_eq {A B C} (p : A * option B * C) :
  p.1.2 = None → p = (p.1.1, None, p.2).
Proof. destruct p as [[a b] c]. simpl. by intros ->. Qed.

(** C6 as stated fails: Node [6] owns the open Handle [0] on the FIFO [p],
    and syncing a FIFO fails; [Fsync] returns that error, as [Flush] on the
    Handle does, and does not succeed. *)
Lemma Fsync_delegates_counterexample :
  map_to_list (handlesOf 6 st_open_p) = [(0, true)] ∧
  (Handle_Flush 0 st_open_p).1 = Returned (Some (OsError OtherKind 22)) ∧
  (Node_Fsync [] 6 st_open_p).1 = Some (OsError OtherKind 22) ∧
  (Node_Fsync [3; 1] 6 st_open_p).1 = Some (OsError OtherKind 22).
Proof. repeat split; vm_compute; reflexivity. Qed.

(** Where [Fsync] and [Flush] part: Handle [0] of Node [4] was left with
    the [nil] file by a failed re-open.  [Fsync] on the Node returns the
    error of the sync, [Flush] on the Handle panics. *)
Lemma Fsync_nil_file_example :
  map_to_list (handlesOf 4 st_nil_file) = [(0, true)] ∧
  h_f (hstore st_nil_file 0) = None ∧
  (Node_Fsync [] 4 st_nil_file).1 = Some (OsError OtherKind 22) ∧
  (Handle_Flush 0 st_nil_file).1 = Panicked nilDereference.
Proof. repeat split; vm_compute; reflexivity. Qed.

(** Node [1] of [a], with the attributes [user.m], [user.z], [user.b]. *)
Lemma Listxattr_pagination_witness :
  let x := attrsAt "a" st_three in
  (∀ seeds pos size resp,
     Node_Listxattr seeds 1 (mkListxattrRequest size pos) resp st_three =
     (None, resp ++ limit size (drop (N.to_nat pos) (sortedNames x)))) ∧
  (∀ size l, length (limit size l) ≤ N.to_nat size ∨ size = 0%N) ∧
  (∀ size l, size = 0%N ∨ length l ≤ N.to_nat size → limit size l = l) ∧
  (StronglySorted String.le (sortedNames x) ∧ NoDup (sortedNames x) ∧
   ∀ name, name ∈ sortedNames x ↔ is_Some (x !! name)) ∧
  (∀ calls, concat (pages 1 st_three 0 calls) =
            take (length (concat (pages 1 st_three 0 calls))) (sortedNames x)) ∧
  (∀ calls, length (sortedNames x) ≤ length calls →
            concat (pages 1 st_three 0 calls) = sortedNames x) ∧
  (∀ seeds pos size, (N.of_nat (length (sortedNames x)) ≤ pos)%N →
                     page seeds 1 st_three pos size = []).
Proof.
  apply (Listxattr_pagination st_three 1 (attrsAt "a" st_three)).
  - vm_compute. reflexivity.
  - unfold attrsAt.
    change (getRealPath 1 st_three) with "a".
    assert (from_option (λ _, true) false (xattrsAt "a" (fs st_three)) = true) as Hsome
      by (vm_compute; reflexivity).
    by destruct (xattrsAt "a" (fs st_three)).
Defined.

(** The pages of that Node, two names at a time, and all at once. *)
Lemma Listxattr_pages_example :
  pages 1 st_three 0 [(2%N, [1; 2]); (2%N, []); (2%N, [5])] =
    [["user.b"; "user.m"]; ["user.z"]; []] ∧
  pages 1 st_three 0 [(0%N, [2]); (0%N, [])] =
    [["user.b"; "user.m"; "user.z"]; []] ∧
  page [] 1 st_three 1 7 = ["user.m"; "user.z"].
Proof. repeat split; vm_compute; reflexivity. Qed.

(** [a] has mode 0644: reading is granted to the owner. *)
Lemma Access_owner_bits_witness :
  let fi := file "a" 420 5 2 in
  (Node_Access 1 4 st_attr_a = None ↔ bits_subset 4 (Z.shiftr (fi_Mode fi) 6)) ∧
  (¬ bits_subset 4 (Z.shiftr (fi_Mode fi) 6) → Node_Access 1 4 st_attr_a = Some EPERM) ∧
  (bits_subset 4 (Z.shiftr (fi_Mode fi) 6) ↔
   ∀ i, (0 ≤ i)%Z → Z.testbit 4 i = true → Z.testbit (fi_Mode fi) (i + 6) = true).
Proof.
  apply (Access_owner_bits st_attr_a 1 4 (file "a" 420 5 2)).
  - vm_compute. reflexivity.
  - simpl. lia.
Defined.

(** Reading is granted on [a], executing is not. *)
Lemma Access_example :
  Node_Access 1 4 st_attr_a = None ∧ Node_Access 1 6 st_attr_a = None ∧
  Node_Access 1 1 st_attr_a = Some EPERM ∧ Node_Access 1 7 st_attr_a = Some EPERM.
Proof. repeat split; vm_compute; reflexivity. Qed.



(** [a] has modification time 5.  Requests to set it to 100 s, with and
    without an access time, succeed, answer with the old modification
    time and leave it on the file; they do what the request with no times
    filled in does. *)
Lemma Setattr_ignores_times_witness :
  Node_Setattr 1 req_times attr0 st_attr_a =
  Node_Setattr 1 req_notimes attr0 st_attr_a ∧
  valid SetattrMtime req_mtime = true ∧
  sa_Mtime req_mtime = 100000000000%Z ∧
  fi_ModTime <$> files (world st_attr_a) !! "a" = Some 5%Z ∧
  (Node_Setattr 1 req_mtime attr0 st_attr_a).1 = (None, file "a" 420 5 2) ∧
  fi_ModTime <$> files (world (Node_Setattr 1 req_mtime attr0 st_attr_a).2) !! "a"
    = Some 5%Z ∧
  (Node_Setattr 1 req_times attr0 st_attr_a).1 = (None, file "a" 420 5 2) ∧
  fi_ModTime <$> files (world (Node_Setattr 1 req_times attr0 st_attr_a).2) !! "a"
    = Some 5%Z.
Proof.
  split.
  - apply (Setattr_ignores_times st_attr_a 1 req_notimes attr0
             50000000000 100000000000).
    reflexivity.
  - repeat split; vm_compute; reflexivity.
Defined.

(** Renaming a file that does not exist fails and leaves the attributes
    and the registry alone. *)
Lemma Rename_failure_example :
  let r := Node_Rename 0 (mkRenameRequest "zz" "c") 0 st_attr_a in
  r.1 = Some (OsError NotExist 2) ∧
  map_to_list (nodes (fs r.2)) = map_to_list (nodes (fs st_attr_a)) ∧
  Node_Getxattr 1 "user.k" r.2 = inr value1 ∧
  getRealPath 1 r.2 = "a".
Proof. repeat split; vm_compute; reflexivity. Qed.

End OnMemFS.

(** * Further properties *)

(** ** Forgetting Nodes *)

Section Forget.
Context `{U : Underlying}.
Implicit Types (st : State) (n m : nat) (k p : string) (l : list nat).

(** The search of [forgetNode] finds the first occurrence. *)
Lemma findNode_spec n l (i : Z) :
  (findNode n l i = (-1)%Z ∧ (n ∉ l) ∧ removeFirst n l = l) ∨
  (∃ j, findNode n l i = (i + Z.of_nat j)%Z ∧ l !! j = Some n ∧
        removeFirst n l = take j l ++ drop (S j) l).
Proof.
  revert i. induction l as [|x l IH]; intros i; simpl.
  - left. split_and!; [done|apply not_elem_of_nil|done].
  - destruct (decide (x = n)) as [->|Hne].
    + right. exists 0. split_and!; [f_equal; lia|done|by rewrite drop_0].
    + destruct (IH (i + 1)%Z) as [(H1 & H2 & H3)|(j & H1 & H2 & H3)].
      * left. split_and!; [done| |by rewrite H3].
        intros [?|?]%elem_of_cons; by subst.
      * right. exists (S j). split_and!; [rewrite H1; lia|done|].
        simpl. by rewrite H3.
Qed.

(** The slice surgery of [forgetNode] removes the first occurrence, and
    nothing when there is none. *)
Lemma forget_slice n l :
  (if (-1 <? findNode n l 0)%Z
   then take (Z.to_nat (findNode n l 0)) l ++ drop (Z.to_nat (findNode n l 0 + 1)) l
   else l) = removeFirst n l.
Proof.
  destruct (findNode_spec n l 0) as [(H1 & H2 & H3)|(j & H1 & H2 & H3)]; rewrite H1.
  - simpl. by rewrite H3.
  - destruct (Z.ltb_spec (-1) (0 + Z.of_nat j)); [|lia].
    rewrite H3. f_equal; f_equal; lia.
Qed.

Lemma elem_of_removeFirst n m l :
  m ∈ removeFirst n l → m ∈ l.
Proof.
  induction l as [|x l IH]; simpl; [done|].
  case_decide; subst.
  - intros ?. by right.
  - intros [->|?]%elem_of_cons; [left|right; auto].
Qed.

Lemma elem_of_removeFirst_ne n m l :
  m ≠ n → m ∈ removeFirst n l ↔ m ∈ l.
Proof.
  intros Hne. induction l as [|x l IH]; simpl; [done|].
  case_decide; subst.
  - rewrite elem_of_cons. split; [by right|by intros [?|?]].
  - by rewrite !elem_of_cons, IH.
Qed.

Lemma removeFirst_NoDup n l : NoDup l → NoDup (removeFirst n l) ∧ n ∉ removeFirst n l.
Proof.
  induction 1 as [|x l Hx Hl IH]; simpl.
  - split; [constructor|apply not_elem_of_nil].
  - case_decide; subst; [done|]. destruct IH as [IH1 IH2]. split.
    + constructor; [|done]. intros Hin. by apply elem_of_removeFirst in Hin.
    + intros [?|?]%elem_of_cons; by subst.
Qed.

Lemma removeFirst_not_in n l : n ∉ l → removeFirst n l = l.
Proof.
  induction l as [|x l IH]; simpl; [done|].
  intros Hn. case_decide; subst.
  - exfalso. apply Hn. by left.
  - f_equal. apply IH. intros ?. apply Hn. by right.
Qed.

Lemma removeFirst_snoc n l : n ∉ l → removeFirst n (l ++ [n]) = l.
Proof.
  induction l as [|x l IH]; simpl.
  - intros _. by rewrite decide_True.
  - intros Hn. case_decide; subst.
    + exfalso. apply Hn. by left.
    + f_equal. apply IH. intros ?. apply Hn. by right.
Qed.

Lemma forgetNode_bucket_eq st n k :
  bucket (nodes (fs (forgetNode n st))) k =
  if decide (k = getRealPath n st)
  then removeFirst n (bucket (nodes (fs st)) k)
  else bucket (nodes (fs st)) k.
Proof.
  unfold forgetNode, getRealPath.
  destruct (nodes (fs st) !! realPath (nstore st n)) as [l|] eqn:Hl.
  - rewrite forget_slice. pose proof (bucket_lookup _ _ _ Hl) as Hbl.
    destruct (Nat.eqb_spec (length (removeFirst n l)) 0) as [H0|H0]; simpl.
    + rewrite bucket_delete. destruct (decide _) as [->|]; [|done].
      rewrite Hbl. by destruct (removeFirst n l).
    + rewrite bucket_insert. destruct (decide _) as [->|]; [|done]. by rewrite Hbl.
  - destruct (decide _) as [->|]; [|done]. unfold bucket. by rewrite Hl.
Qed.

Lemma forgetNode_removes_first_buckets st n k :
  bucket (nodes (fs (forgetNode n st))) k = removeFirst n (bucket (nodes (fs st)) k) ∨
  bucket (nodes (fs (forgetNode n st))) k = bucket (nodes (fs st)) k.
Proof. rewrite forgetNode_bucket_eq. case_decide; auto. Qed.

(** X1. [forgetNode] takes the first occurrence of the Node out of the
    bucket of the Node's path and touches no other bucket; a Node that is
    not in that bucket is left out of nothing (the call is a no-op on the
    buckets); the key is deleted when the bucket becomes empty; and the
    Nodes, the attributes and the outside world are as before. *)
Theorem forgetNode_removes_first st n :
  (∀ k, bucket (nodes (fs (forgetNode n st))) k =
        if decide (k = getRealPath n st)
        then removeFirst n (bucket (nodes (fs st)) k)
        else bucket (nodes (fs st)) k) ∧
  (removeFirst n (bucket (nodes (fs st)) (getRealPath n st)) = [] →
   nodes (fs (forgetNode n st)) !! getRealPath n st = None) ∧
  (¬ registered n (getRealPath n st) st →
   ∀ k, bucket (nodes (fs (forgetNode n st))) k = bucket (nodes (fs st)) k) ∧
  nstore (forgetNode n st) = nstore st ∧
  xattrs (fs (forgetNode n st)) = xattrs (fs st) ∧
  world (forgetNode n st) = world st.
Proof.
  pose proof (forgetNode_bucket_eq st n) as Hb.
  destruct (forgetNode_frame n st) as (Hs & _ & Hx & _ & _ & Hw).
  split_and!; try done.
  - intros Hnil. unfold forgetNode, getRealPath in *.
    destruct (nodes (fs st) !! realPath (nstore st n)) as [l|] eqn:Hl; [|done].
    rewrite forget_slice. rewrite (bucket_lookup _ _ _ Hl) in Hnil. rewrite Hnil.
    simpl. apply lookup_delete_eq.
  - intros Hn k. rewrite Hb. destruct (decide _) as [->|]; [|done].
    by apply removeFirst_not_in.
Qed.

(** *** No Node twice in a bucket *)

Lemma registry_nodup_frame st st' :
  same_registry st st' → registry_nodup st → registry_nodup st'.
Proof. intros (Hn & _) Hnd k. rewrite Hn. apply Hnd. Qed.

Lemma registry_nodup_newNode n st :
  ¬ registered n (getRealPath n st) st →
  registry_nodup st → registry_nodup (newNode n st).
Proof.
  intros Hn Hnd k. unfold newNode. simpl. rewrite bucket_insert.
  destruct (decide _) as [->|]; [|apply Hnd].
  apply NoDup_app. split_and!; [apply Hnd| |apply NoDup_singleton].
  intros x Hx ->%list_elem_of_singleton. by apply Hn.
Qed.

Lemma registry_nodup_register nd st :
  registry_ok st → registry_nodup st →
  registry_nodup (newNode (allocNode nd st).1 (allocNode nd st).2).
Proof.
  intros [_ Hlt] Hnd. apply registry_nodup_newNode.
  - intros Hin. apply Hlt in Hin. simpl in Hin. lia.
  - intros k. apply Hnd.
Qed.

Lemma registry_nodup_nodeRenamed oldPath newPath st :
  registry_inv st → registry_nodup st →
  registry_nodup (nodeRenamed oldPath newPath st).
Proof.
  intros Hinv Hnd k. rewrite nodeRenamed_bucket.
  destruct (decide (k = oldPath)) as [->|Hko]; [constructor|].
  destruct (decide (k = newPath)) as [->|Hkn]; [|apply Hnd].
  apply NoDup_app. split_and!; [apply Hnd| |apply Hnd].
  intros x H1 H2. apply Hinv in H1, H2. congruence.
Qed.

Lemma registry_nodup_forgetNode n st :
  registry_nodup st → registry_nodup (forgetNode n st).
Proof.
  intros Hnd k. destruct (forgetNode_removes_first_buckets st n k) as [-> | ->].
  - by apply removeFirst_NoDup.
  - apply Hnd.
Qed.

End Forget.

(** ** What the methods leave alone *)

Section Frames.
Context `{U : Underlying}.
Implicit Types (st : State) (n m : nat) (k p : string) (l : list nat).

Lemma callStep_same_registry (st : State) (c : Call) :
  writes_registry c = false → same_registry st (callStep st c).
Proof.
  destruct c; try discriminate; intros _; cbn [callStep].
  - unfold Node_Open.
    pose proof (same_registry_reopen (ReopenNode n flags perm) st) as Hr.
    destruct (reopen _ st) as [[e|f] st1]; simpl in *; [done|].
    eapply same_registry_trans; [exact Hr|].
    eapply same_registry_trans; [|apply same_registry_set_flushers]. done.
  - unfold Node_Remove.
    pose proof (same_registry_onWorld (os_Remove (filepath_Join (getRealPath n st) name)) st) as Hr.
    destruct (onWorld _ st) as [[e|] st1]; simpl in *; [done|].
    eapply same_registry_trans; [exact Hr|apply same_registry_moveAllxattrs].
  - unfold Node_Fsync. case_match; [apply same_registry_refl|apply same_registry_onWorld].
  - unfold Node_Setattr. by repeat case_match.
  - unfold Node_Setxattr. by case_match.
  - unfold Node_Removexattr. by repeat case_match.
  - rewrite Handle_Flush_state. apply same_registry_onWorld.
  - unfold Handle_ReadDirAll. cbv zeta.
    destruct (File_Readdir _ _) as [[fis [e|]] w1]; [done|].
    match goal with |- context [onWorld ?r ?s] =>
      pose proof (same_registry_onWorld r s) as Hr; destruct (onWorld r s) as [[e|] st1] end;
      simpl in *; [done|].
    match goal with |- context [reopen ?r st1] =>
      pose proof (same_registry_reopen r st1) as Hr'; destruct (reopen r st1) as [[e|f] st2] end;
      simpl in *.
    + eapply same_registry_trans; [exact Hr|exact Hr'].
    + case_match; simpl; (eapply same_registry_trans; [exact Hr|exact Hr']).
  - rewrite Handle_Release_state.
    eapply same_registry_trans; [|apply same_registry_onWorld].
    case_match; [apply same_registry_forgetHandle|apply same_registry_refl].
Qed.

Lemma xattrs_nodeRenamed oldPath newPath st :
  xattrs (fs (nodeRenamed oldPath newPath st)) = xattrs (fs st).
Proof. by destruct (nodeRenamed_frame oldPath newPath st) as (? & _). Qed.

Lemma step_xattrs (st : State) :
  (∀ c, writes_xattrs c = false → xattrs (fs (callStep st c)) = xattrs (fs st)) ∧
  (∀ r, xattrs (fs (regStep st r)) = xattrs (fs st)).
Proof.
  split.
  - intros c. destruct c; try discriminate; intros _; cbn [callStep];
      try (unfold Root, Node_Lookup, Node_Open, Node_Create, Node_Mkdir,
             Node_Fsync, Node_Setattr, Node_Forget,
             Handle_Flush, Handle_ReadDirAll, Handle_Release, forgetNode, forgetHandle,
             reopen, onWorld;
           by repeat (case_match; simplify_eq/=)).
    done.
  - intros [nd|o p|n]; simpl; [done|apply xattrs_nodeRenamed|].
    by destruct (forgetNode_frame n st) as (_ & _ & ? & _).
Qed.

(** *** The registry over whole runs *)

Lemma registry_nodup_callStep st c :
  registry_ok st → registry_nodup st → registry_nodup (callStep st c).
Proof.
  intros Hok Hnd. destruct (writes_registry c) eqn:Hc.
  2:{ eapply registry_nodup_frame; [by apply callStep_same_registry|done]. }
  destruct c; try discriminate; cbn [callStep].
  - by apply registry_nodup_register.
  - unfold Node_Lookup. destruct (negb _); [done|].
    destruct (os_Stat _ _) as [e|fi]; [done|].
    by apply (registry_nodup_register (mkNode _ _ _) st).
  - unfold Node_Create.
    match goal with |- context [reopen ?r st] =>
      pose proof (same_registry_reopen r st) as Hr; destruct (reopen r st) as [[e|f] st1] end;
      simpl in *; [by eapply registry_nodup_frame|].
    pose proof (registry_ok_frame _ _ Hr Hok) as [_ Hlt].
    pose proof (registry_nodup_frame _ _ Hr Hnd) as Hnd1.
    apply registry_nodup_newNode.
    + intros Hin. unfold registered in Hin. simpl in Hin. apply Hlt in Hin. lia.
    + intros k. apply Hnd1.
  - unfold Node_Mkdir.
    match goal with |- context [onWorld ?r st] =>
      pose proof (same_registry_onWorld r st) as Hr; destruct (onWorld r st) as [[e|] st1] end;
      simpl in *; [by eapply registry_nodup_frame|].
    apply (registry_nodup_register _ st1);
      [by eapply registry_ok_frame|by eapply registry_nodup_frame].
  - unfold Node_Rename.
    match goal with |- context [onWorld ?r st] =>
      pose proof (same_registry_onWorld r st) as Hr; destruct (onWorld r st) as [[e|] st1] end;
      simpl in *; [by eapply registry_nodup_frame|].
    assert (same_registry st (moveAllxattrs
              (filepath_Join (getRealPath n st) (rn_OldName req))
              (filepath_Join (getRealPath newDir st) (rn_NewName req)) st1)) as Hr'.
    { eapply same_registry_trans; [exact Hr|apply same_registry_moveAllxattrs]. }
    apply registry_nodup_nodeRenamed.
    + by apply (registry_ok_frame _ _ Hr' Hok).
    + by eapply registry_nodup_frame.
  - by apply registry_nodup_forgetNode.
Qed.

Lemma registry_nodup_regStep st r :
  registry_ok st → registry_nodup st → registry_nodup (regStep st r).
Proof.
  intros Hok Hnd. destruct r as [nd|o p|n]; simpl.
  - by apply registry_nodup_register.
  - apply registry_nodup_nodeRenamed; [by destruct Hok|done].
  - by apply registry_nodup_forgetNode.
Qed.

Lemma registry_nodup_run ops st :
  registry_ok st → registry_nodup st → registry_nodup (run ops st).
Proof.
  revert st. induction ops as [|[c|r] ops IH]; intros st Hok Hnd; [done|..]; apply IH.
  - by apply registry_ok_callStep.
  - by apply registry_nodup_callStep.
  - by apply registry_ok_regStep.
  - by apply registry_nodup_regStep.
Qed.

Lemma registry_nodup_start lat w : registry_nodup (start lat w).
Proof. intros k. unfold bucket. simpl. rewrite lookup_empty. constructor. Qed.

(** X2. Only [Root], [Lookup], [Create], [Mkdir], [Rename] and [Forget]
    change the registry or the path of a Node: every other method leaves
    the buckets, all path fields and the Node allocation as they are.
    Only [Remove], [Rename], [Setxattr] and [Removexattr] write to the
    attribute store: every other method, and every registry operation,
    leaves it as it is. *)
Theorem methods_leave_alone (st : State) :
  (∀ c, writes_registry c = false → same_registry st (callStep st c)) ∧
  (∀ c, writes_xattrs c = false → xattrs (fs (callStep st c)) = xattrs (fs st)) ∧
  (∀ r, xattrs (fs (regStep st r)) = xattrs (fs st)).
Proof.
  split; [intros c; apply callStep_same_registry|apply step_xattrs].
Qed.

(** X3. In every state reached from [NewFS] no Node is twice in a bucket:
    with the invariant that a Node is only in the bucket of its own path,
    a Node is in the registry at most once. *)
Theorem registry_no_duplicates (lat : Z) (w : World) (ops : list (Call + RegOp)) :
  registry_nodup (run ops (start lat w)).
Proof. apply registry_nodup_run; [apply registry_ok_start|apply registry_nodup_start]. Qed.

(** X4. In every state reached from [NewFS], after [Node.Forget] the Node
    is in no bucket, and every other Node is in the buckets it was in. *)
Theorem Forget_unregisters (lat : Z) (w : World) (ops : list (Call + RegOp)) (n : nat) :
  (∀ k, ¬ registered n k (Node_Forget n (run ops (start lat w)))) ∧
  (∀ m k, m ≠ n →
     registered m k (Node_Forget n (run ops (start lat w))) ↔
     registered m k (run ops (start lat w))).
Proof.
  set (st := run ops (start lat w)).
  assert (registry_ok st) as [Hinv Hlt] by apply registry_ok_run, registry_ok_start.
  assert (registry_nodup st) as Hnd
    by (apply registry_nodup_run; [apply registry_ok_start|apply registry_nodup_start]).
  unfold Node_Forget, registered. split.
  - intros k. rewrite forgetNode_bucket_eq. destruct (decide _) as [->|Hk].
    + by apply removeFirst_NoDup.
    + intros Hin. apply Hinv in Hin. congruence.
  - intros m k Hm. rewrite forgetNode_bucket_eq. destruct (decide _) as [->|Hk]; [|done].
    by apply elem_of_removeFirst_ne.
Qed.

End Frames.

(** ** Round trips *)

Section RoundTrips.
Context `{U : Underlying}.
Implicit Types (st : State) (n m : nat) (k p : string) (l : list nat).

(** X5. Registering a Node that is not in the bucket of its path and then
    forgetting it gives back the buckets there were, and changes no Node. *)
Theorem newNode_forgetNode st n :
  ¬ registered n (getRealPath n st) st →
  (∀ k, bucket (nodes (fs (forgetNode n (newNode n st)))) k = bucket (nodes (fs st)) k) ∧
  nstore (forgetNode n (newNode n st)) = nstore st.
Proof.
  intros Hn. split.
  - intros k. rewrite forgetNode_bucket_eq.
    change (getRealPath n (newNode n st)) with (getRealPath n st).
    unfold newNode. simpl. rewrite bucket_insert.
    destruct (decide _) as [->|]; [|done]. by apply removeFirst_snoc.
  - by destruct (forgetNode_frame n (newNode n st)) as (-> & _).
Qed.

Lemma node_eta (nd : Node) : mkNode (realPath nd) (isDir nd) (flushers nd) = nd.
Proof. by destruct nd. Qed.

Lemma migrate_bucket op np st k :
  bucket (nodes (fs (migrate op np st))) k =
  if decide (k = op) then []
  else if decide (k = np)
       then bucket (nodes (fs st)) np ++ bucket (nodes (fs st)) op
       else bucket (nodes (fs st)) k.
Proof.
  unfold migrate. rewrite nodeRenamed_bucket.
  by destruct (moveAllxattrs_frame op np st) as (-> & _).
Qed.

Lemma migrate_node op np st m :
  nstore (migrate op np st) m =
  if decide (m ∈ bucket (nodes (fs (migrate op np st))) np)
  then mkNode np (isDir (nstore st m)) (flushers (nstore st m))
  else nstore st m.
Proof.
  unfold migrate. rewrite nodeRenamed_node.
  by destruct (moveAllxattrs_frame op np st) as (_ & -> & _).
Qed.

Lemma migrate_xattrsAt op np st p :
  xattrsAt p (fs (migrate op np st)) = xattrsAt p (fs (moveAllxattrs op np st)).
Proof.
  unfold migrate, xattrsAt.
  by destruct (nodeRenamed_frame op np (moveAllxattrs op np st)) as (-> & _).
Qed.

(** X6. Renaming [op] to a free path [np] (no Node registered under it, no
    attributes stored under it) and back: the migrations of the second
    rename undo those of the first.  Every bucket, every Node and the
    attributes of every path are what they were. *)
Theorem migrate_there_and_back st op np :
  op ≠ np → op ≠ EmptyString → np ≠ EmptyString →
  registry_inv st →
  bucket (nodes (fs st)) np = [] →
  xattrsAt np (fs st) = None →
  (∀ k, bucket (nodes (fs (migrate np op (migrate op np st)))) k = bucket (nodes (fs st)) k) ∧
  (∀ m, nstore (migrate np op (migrate op np st)) m = nstore st m) ∧
  (∀ p, xattrsAt p (fs (migrate np op (migrate op np st))) = xattrsAt p (fs st)).
Proof.
  intros Hne Hop Hnp Hinv Hfree Hnone.
  assert (∀ k, bucket (nodes (fs (migrate np op (migrate op np st)))) k
               = bucket (nodes (fs st)) k) as Hb.
  { intros k. rewrite migrate_bucket, !migrate_bucket.
    rewrite (decide_True (P := op = op)) by done.
    rewrite (decide_False (P := np = op)) by done.
    rewrite (decide_True (P := np = np)) by done.
    rewrite Hfree. simpl.
    destruct (decide (k = np)) as [->|]; [done|].
    by destruct (decide (k = op)) as [->|]. }
  split_and!; [done| |].
  - intros m. rewrite migrate_node, Hb, migrate_node, migrate_bucket.
    rewrite (decide_False (P := np = op)) by done.
    rewrite (decide_True (P := np = np)) by done.
    rewrite Hfree. simpl.
    destruct (decide (m ∈ bucket (nodes (fs st)) op)) as [Hin|Hin]; [|done].
    simpl. rewrite <- (Hinv _ _ Hin). apply node_eta.
  - intros p. rewrite migrate_xattrsAt, moveAllxattrs_xattrsAt, migrate_xattrsAt,
      !moveAllxattrs_xattrsAt.
    destruct (xattrsAt op (fs st)) as [x|] eqn:Hx.
    + rewrite (decide_False (P := np = op)) by done.
      rewrite (decide_True (P := np = np ∧ np ≠ EmptyString)) by done.
      destruct (decide (p = np)) as [->|Hpn]; [done|].
      rewrite migrate_xattrsAt, moveAllxattrs_xattrsAt, Hx.
      destruct (decide (p = op)) as [->|Hpo].
      * by rewrite decide_True.
      * rewrite decide_False by (by intros []). rewrite decide_False; [done|by intros []].
    + rewrite Hnone. by rewrite migrate_xattrsAt, moveAllxattrs_xattrsAt, Hx.
Qed.

End RoundTrips.

(** ** The attribute store *)

Section Xattrs.
Context `{U : Underlying}.
Implicit Types (st : State) (n m : nat) (k p : string).

Lemma Setxattr_xattrsAt st n name v p :
  inMemoryXattr (fs st) = true →
  xattrsAt p (fs (Node_Setxattr n name v st).2) =
  if decide (p = getRealPath n st)
  then Some (<[name := v]> (attrsAt p st))
  else xattrsAt p (fs st).
Proof.
  intros Hflag. unfold Node_Setxattr. rewrite Hflag. simpl.
  unfold xattrsAt at 1. simpl. destruct (decide _) as [->|].
  - by rewrite lookup_insert_eq.
  - by rewrite lookup_insert_ne.
Qed.

(** X7. With in-memory attributes enabled, [Setxattr] succeeds; the value
    is then read by [Getxattr] under that name through any Node with the
    same path; every other name and every other path reads as before; and
    the registry, the Nodes and the outside world are untouched. *)
Theorem Setxattr_Getxattr st n name v :
  inMemoryXattr (fs st) = true →
  (Node_Setxattr n name v st).1 = None ∧
  (∀ m, getRealPath m st = getRealPath n st →
        Node_Getxattr m name (Node_Setxattr n name v st).2 = inr v) ∧
  (∀ m name', getRealPath m st ≠ getRealPath n st ∨ name' ≠ name →
        Node_Getxattr m name' (Node_Setxattr n name v st).2 = Node_Getxattr m name' st) ∧
  nodes (fs (Node_Setxattr n name v st).2) = nodes (fs st) ∧
  nstore (Node_Setxattr n name v st).2 = nstore st ∧
  world (Node_Setxattr n name v st).2 = world st.
Proof.
  intros Hflag.
  assert (inMemoryXattr (fs (Node_Setxattr n name v st).2) = true ∧
          nstore (Node_Setxattr n name v st).2 = nstore st) as [Hflag' Hs].
  { unfold Node_Setxattr. by rewrite Hflag. }
  split_and!; try (unfold Node_Setxattr; by rewrite Hflag).
  - intros m Hm. unfold Node_Getxattr. rewrite Hflag'. simpl.
    unfold getRealPath at 1. rewrite Hs. fold (getRealPath m st).
    rewrite Setxattr_xattrsAt by done. rewrite decide_True by done.
    by rewrite lookup_insert_eq.
  - intros m name' Hdiff. unfold Node_Getxattr. rewrite Hflag', Hflag. simpl.
    unfold getRealPath at 1. rewrite Hs. fold (getRealPath m st).
    rewrite Setxattr_xattrsAt by done.
    destruct (decide _) as [Heq|]; [|done].
    destruct Hdiff as [?|Hname]; [done|].
    rewrite lookup_insert_ne by done. unfold attrsAt.
    destruct (xattrsAt (getRealPath m st) (fs st)); [done|]. simpl.
    by rewrite lookup_empty.
Qed.

Lemma Removexattr_cases st n name :
  inMemoryXattr (fs st) = true →
  Node_Removexattr n name st =
  match xattrsAt (getRealPath n st) (fs st) with
  | Some x =>
    match x !! name with
    | Some _ => (None, set_fs (λ f, set_xattrs (<[getRealPath n st := Some (delete name x)]>
                                                  (xattrs f)) f) st)
    | None => (Some ENODATA, st)
    end
  | None => (Some ENODATA, st)
  end.
Proof. intros Hflag. unfold Node_Removexattr. by rewrite Hflag. Qed.

(** X8. With in-memory attributes enabled, [Removexattr] succeeds exactly
    when [Getxattr] finds the name.  When the name is absent it fails with
    ENODATA and changes nothing.  When it succeeds, [Getxattr] under that
    name then fails with ENODATA through every Node with the same path,
    and every other name and path reads as before. *)
Theorem Removexattr_Getxattr st n name :
  inMemoryXattr (fs st) = true →
  ((Node_Removexattr n name st).1 = None ↔ ∃ v, Node_Getxattr n name st = inr v) ∧
  (Node_Getxattr n name st = inl ENODATA →
     Node_Removexattr n name st = (Some ENODATA, st)) ∧
  ((Node_Removexattr n name st).1 = None →
     (∀ m, getRealPath m st = getRealPath n st →
           Node_Getxattr m name (Node_Removexattr n name st).2 = inl ENODATA) ∧
     (∀ m name', getRealPath m st ≠ getRealPath n st ∨ name' ≠ name →
           Node_Getxattr m name' (Node_Removexattr n name st).2 =
           Node_Getxattr m name' st)).
Proof.
  intros Hflag. rewrite Removexattr_cases by done.
  unfold Node_Getxattr. rewrite Hflag. simpl.
  destruct (xattrsAt (getRealPath n st) (fs st)) as [x|] eqn:Hx.
  2:{ split_and!; [split; [done|by intros [? ?]]|done|done]. }
  destruct (x !! name) as [v|] eqn:Hv.
  2:{ split_and!; [split; [done|by intros [? ?]]|done|done]. }
  simpl. split_and!; [split; eauto|done|]. intros _.
  split.
  - intros m Hm. unfold getRealPath at 1. simpl. fold (getRealPath m st).
    unfold xattrsAt. simpl. rewrite Hm, lookup_insert_eq, Hflag. simpl.
    by rewrite lookup_delete_eq.
  - intros m name' Hdiff. unfold getRealPath at 1. simpl. fold (getRealPath m st).
    unfold xattrsAt at 1. simpl. rewrite Hflag. simpl.
    destruct (decide (getRealPath m st = getRealPath n st)) as [Heq|Hneq].
    + rewrite Heq, lookup_insert_eq, Hx. simpl.
      destruct Hdiff as [?|Hname]; [done|]. by rewrite lookup_delete_ne.
    + by rewrite lookup_insert_ne.
Qed.

(** X9. [Node.Remove] returns the error of [os.Remove] as it is, without
    translation, and then changes nothing but the outside world.  When
    [os.Remove] succeeds, no attributes are stored under the removed path
    any more, the attributes of every other path are as before, and the
    registry is untouched: the Nodes of the removed path stay registered
    under it. *)
Theorem Remove_clears_attributes st n name :
  let p := filepath_Join (getRealPath n st) name in
  (∀ e w, os_Remove p (world st) = (Some e, w) →
     Node_Remove n name st = (Some e, set_world w st)) ∧
  (∀ w, os_Remove p (world st) = (None, w) →
     (Node_Remove n name st).1 = None ∧
     world (Node_Remove n name st).2 = w ∧
     xattrsAt p (fs (Node_Remove n name st).2) = None ∧
     (∀ q, q ≠ p → xattrsAt q (fs (Node_Remove n name st).2) = xattrsAt q (fs st)) ∧
     (∀ m, inMemoryXattr (fs st) = true → getRealPath m st = p →
           ∀ a, Node_Getxattr m a (Node_Remove n name st).2 = inl ENODATA) ∧
     nodes (fs (Node_Remove n name st).2) = nodes (fs st) ∧
     nstore (Node_Remove n name st).2 = nstore st).
Proof.
  intros p. unfold Node_Remove, onWorld. fold p. split.
  - intros e w ->. done.
  - intros w ->. simpl.
    destruct (moveAllxattrs_frame p EmptyString (set_world w st))
      as (Hn & Hs & _ & Hf & _ & _ & Hw).
    assert (∀ q, xattrsAt q (fs (moveAllxattrs p EmptyString (set_world w st))) =
                 if decide (q = p) then None else xattrsAt q (fs st)) as Hx.
    { intros q. rewrite moveAllxattrs_xattrsAt. simpl.
      change (xattrsAt p (fs (set_world w st))) with (xattrsAt p (fs st)).
      change (xattrsAt q (fs (set_world w st))) with (xattrsAt q (fs st)).
      destruct (xattrsAt p (fs st)) as [x|] eqn:E.
      - destruct (decide (q = p)); [done|].
        rewrite decide_False; [done|]. by intros [_ ?].
      - destruct (decide (q = p)) as [->|]; [done|done]. }
    split_and!; try done.
    + rewrite Hx. by rewrite decide_True.
    + intros q Hq. rewrite Hx. by rewrite decide_False.
    + intros m Hflag Hm a. unfold Node_Getxattr. rewrite Hf. simpl. rewrite Hflag. simpl.
      unfold getRealPath at 1. rewrite Hs. simpl. fold (getRealPath m st).
      rewrite Hm, Hx. by rewrite decide_True.
Qed.

End Xattrs.

(** ** Handles *)

Section Handles.
Context `{U : Underlying}.
Implicit Types (st : State) (n m h : nat).

Lemma handlesOf_set_flushers n m fl st :
  handlesOf m (set_flushers n fl st) =
  if decide (m = n) then default ∅ fl else handlesOf m st.
Proof.
  unfold handlesOf, set_flushers. simpl. destruct (decide (m = n)) as [->|].
  - by rewrite fn_lookup_insert.
  - by rewrite fn_lookup_insert_ne.
Qed.

Lemma handlesOf_rememberHandle n m h st :
  handlesOf m (rememberHandle n h st) =
  if decide (m = n) then <[h := true]> (handlesOf n st) else handlesOf m st.
Proof. unfold rememberHandle. by rewrite handlesOf_set_flushers. Qed.


(** What a successful [Node.Open] leaves behind. *)
Lemma Node_Open_success st n flags perm h st1 :
  Node_Open n flags perm st = (inr h, st1) →
  ∃ f st0,
    reopen (ReopenNode n flags perm) st = (inr f, st0) ∧
    h = hnext st ∧
    hstore st1 h = mkHandle (ReopenNode n flags perm) (Some n) f ∧
    (∀ m, handlesOf m st1 =
          if decide (m = n) then <[h := true]> (handlesOf n st) else handlesOf m st) ∧
    world st1 = world st0.
Proof.
  unfold Node_Open. destruct (reopen _ st) as [[e|f] st0] eqn:Hre; [done|].
  simpl. intros [= <- <-]. exists f, st0.
  assert (hnext st0 = hnext st ∧ nstore st0 = nstore st) as [Hh Hs].
  { unfold reopen in Hre. by repeat case_match; simplify_eq. }
  split_and!; [done|done|..].
  - simpl. by rewrite fn_lookup_insert.
  - intros m. unfold handlesOf. simpl. rewrite Hs.
    destruct (decide (m = n)) as [->|].
    + by rewrite fn_lookup_insert.
    + by rewrite fn_lookup_insert_ne.
  - done.
Qed.


End Handles.

(** ** Failures of the underlying file system *)

Section Failures.
Context `{U : Underlying}.
Implicit Types (st : State) (n m h : nat).

(** X11. When the underlying call fails, [Lookup], [Open], [Create] and
    [Mkdir] return its error translated, [Remove] and [Rename] return it
    as it is, and in each case nothing but the outside world has changed:
    no Node or Handle is allocated or registered and no attribute
    moves. *)
Theorem failure_changes_nothing st n name flags perm mode req newDir :
  (∀ e, os_Stat (filepath_Join (getRealPath n st) name) (world st) = inl e →
        isDir (nstore st n) = true →
        Node_Lookup n name st = (inl (translate e), st)) ∧
  (∀ e w, os_OpenFile (getRealPath n st) flags perm (world st) = (inl e, w) →
        Node_Open n flags perm st = (inl (translate e), set_world w st)) ∧
  (∀ e w, os_OpenFile (filepath_Join (getRealPath n st) name) flags mode (world st)
          = (inl e, w) →
        Node_Create n name flags mode st = (inl (translate e), set_world w st)) ∧
  (∀ e w, os_Mkdir (filepath_Join (getRealPath n st) name) mode (world st) = (Some e, w) →
        Node_Mkdir n name mode st = (inl (translate e), set_world w st)) ∧
  (∀ e w, os_Remove (filepath_Join (getRealPath n st) name) (world st) = (Some e, w) →
        Node_Remove n name st = (Some e, set_world w st)) ∧
  (∀ e w, os_Rename (filepath_Join (getRealPath n st) (rn_OldName req))
                    (filepath_Join (getRealPath newDir st) (rn_NewName req)) (world st)
          = (Some e, w) →
        Node_Rename n req newDir st = (Some e, set_world w st)).
Proof.
  split_and!.
  - intros e He Hd. unfold Node_Lookup. rewrite Hd, He. simpl.
    by destruct e as [| | | | | |[] ?].
  - intros e w He. unfold Node_Open, reopen. by rewrite He.
  - intros e w He. unfold Node_Create, reopen. by rewrite He.
  - intros e w He. unfold Node_Mkdir, onWorld. by rewrite He.
  - intros e w He. unfold Node_Remove, onWorld. by rewrite He.
  - intros e w He. unfold Node_Rename, onWorld. by rewrite He.
Qed.

(** X12. [translateError] keeps [nil] and only [nil] as [nil], turns the
    three kinds of error it knows into ENOENT, EEXIST and EPERM, passes
    every other error through, and translating twice, as [Lookup] does, is
    translating once. *)
Theorem translateError_spec (err : option error) :
  (translateError err = None ↔ err = None) ∧
  translateError (translateError err) = translateError err ∧
  (∀ c, translateError (Some (OsError NotExist c)) = Some ENOENT ∧
        translateError (Some (OsError Exist c)) = Some EEXIST ∧
        translateError (Some (OsError Permission c)) = Some EPERM ∧
        translateError (Some (OsError OtherKind c)) = Some (OsError OtherKind c)) ∧
  (∀ e, (∀ k c, e = OsError k c → k = OtherKind) → translateError (Some e) = Some e).
Proof.
  split_and!.
  - destruct err; simpl; split; by intros.
  - by destruct err as [[| | | | | |[] ?]|].
  - done.
  - intros e He. destruct e as [| | | | | |k c]; try done.
    by rewrite (He k c eq_refl).
Qed.

End Failures.

(** ** Lookup *)

Section Lookup.
Context `{U : Underlying}.
Implicit Types (st : State) (n m h : nat).

Lemma Node_Lookup_success st n name fi :
  isDir (nstore st n) = true →
  os_Stat (filepath_Join (getRealPath n st) name) (world st) = inr fi →
  Node_Lookup n name st =
  (inr (nnext st),
   newNode (nnext st)
     (allocNode (mkNode (filepath_Join (getRealPath n st) name) (FileInfo_IsDir fi) None) st).2).
Proof. intros Hd Hs. unfold Node_Lookup. by rewrite Hd, Hs. Qed.

(** X13. [Lookup] on a Node that is not a directory fails with ENOTSUP and
    changes nothing.  On a directory whose entry stats, it returns a Node
    that was not allocated before, with the joined path and the directory
    flag of the entry, appended to the bucket of that path; every other
    bucket and every other Node is as before.  Looking the same name up
    again gives a second, different Node in the same bucket, behind the
    first. *)
Theorem Lookup_registers_alias st n name fi :
  let p := filepath_Join (getRealPath n st) name in
  let st1 := (Node_Lookup n name st).2 in
  (isDir (nstore st n) = false → Node_Lookup n name st = (inl ENOTSUP, st)) ∧
  (isDir (nstore st n) = true → os_Stat p (world st) = inr fi →
   (Node_Lookup n name st).1 = inr (nnext st) ∧
   nstore st1 (nnext st) = mkNode p (FileInfo_IsDir fi) None ∧
   (∀ m, m ≠ nnext st → nstore st1 m = nstore st m) ∧
   (∀ k, bucket (nodes (fs st1)) k =
         if decide (k = p) then bucket (nodes (fs st)) p ++ [nnext st]
         else bucket (nodes (fs st)) k) ∧
   world st1 = world st ∧
   (n ≠ nnext st →
    (Node_Lookup n name st1).1 = inr (S (nnext st)) ∧
    bucket (nodes (fs (Node_Lookup n name st1).2)) p =
      bucket (nodes (fs st)) p ++ [nnext st; S (nnext st)])).
Proof.
  intros p st1. split.
  - intros Hd. unfold Node_Lookup. by rewrite Hd.
  - intros Hd Hs. subst st1. rewrite (Node_Lookup_success st n name fi) by done. fold p.
    cbn [fst snd].
    set (st1 := newNode _ _).
    assert (nstore st1 (nnext st) = mkNode p (FileInfo_IsDir fi) None) as Hnew.
    { subst st1. simpl. by rewrite fn_lookup_insert. }
    assert (∀ m, m ≠ nnext st → nstore st1 m = nstore st m) as Hold.
    { intros m Hm. subst st1. simpl. by rewrite fn_lookup_insert_ne. }
    assert (∀ k, bucket (nodes (fs st1)) k =
         if decide (k = p) then bucket (nodes (fs st)) p ++ [nnext st]
         else bucket (nodes (fs st)) k) as Hb.
    { intros k. subst st1. unfold newNode, getRealPath. simpl.
      rewrite fn_lookup_insert. simpl. rewrite bucket_insert.
      by destruct (decide _) as [->|]. }
    split_and!; try done.
    intros Hn.
    assert (isDir (nstore st1 n) = true) as Hd1 by by rewrite Hold.
    assert (getRealPath n st1 = getRealPath n st) as Hp1
      by (unfold getRealPath; by rewrite Hold).
    assert (os_Stat (filepath_Join (getRealPath n st1) name) (world st1) = inr fi) as Hs1.
    { rewrite Hp1. exact Hs. }
    rewrite (Node_Lookup_success st1 n name fi) by done. rewrite Hp1. fold p.
    cbn [fst snd]. split; [done|].
    unfold newNode, getRealPath. simpl. rewrite fn_lookup_insert. simpl.
    rewrite bucket_insert, decide_True by done.
    fold st1. rewrite Hb, decide_True by done. by rewrite <- app_assoc.
Qed.

End Lookup.

(** ** Reading a directory *)

Section ReadDirMore.
Context `{U : Underlying}.
Implicit Types (st : State) (n m h : nat).

Lemma getDirentsFrom_direntOf (fis : list FileInfo) (dirs : list Dirent) :
  Forall (λ fi, unsupported fi = false) fis →
  getDirentsFrom dirs fis = Returned (dirs ++ (direntOf <$> fis)).
Proof.
  revert dirs. induction fis as [|fi fis IH]; intros dirs Hall.
  - simpl. by rewrite app_nil_r.
  - apply Forall_cons in Hall as [Hfi Hall]. unfold unsupported in Hfi.
    rewrite fmap_cons. unfold direntOf at 1. simpl.
    destruct (FileInfo_IsDir fi); simpl in Hfi.
    + rewrite IH by done. by rewrite <- app_assoc.
    + destruct (FileMode_IsRegular (fi_Mode fi)); [|done].
      rewrite IH by done. by rewrite <- app_assoc.
Qed.

(** X14. [getDirentsWithFileInfos] returns one entry per [FileInfo], in
    order, with its inode number and name and the type directory or file,
    exactly when every [FileInfo] is a directory or a regular file; it
    panics exactly when one is neither; and it does nothing else. *)
Theorem getDirentsWithFileInfos_spec (fis : list FileInfo) :
  (Forall (λ fi, unsupported fi = false) fis ↔
   getDirentsWithFileInfos fis = Returned (direntOf <$> fis)) ∧
  (Exists (λ fi, unsupported fi = true) fis ↔
   getDirentsWithFileInfos fis = Panicked "unsupported dirent type") ∧
  (getDirentsWithFileInfos fis = Returned (direntOf <$> fis) ∨
   getDirentsWithFileInfos fis = Panicked "unsupported dirent type").
Proof.
  assert (Forall (λ fi, unsupported fi = false) fis ∨
          Exists (λ fi, unsupported fi = true) fis) as Hcases.
  { induction fis as [|fi fis IH]; [by left|].
    destruct (unsupported fi) eqn:E; [right; by left|].
    destruct IH as [IH|IH]; [left; by constructor|right; by right]. }
  assert (Forall (λ fi, unsupported fi = false) fis →
          getDirentsWithFileInfos fis = Returned (direntOf <$> fis)) as Hret.
  { intros Hall. unfold getDirentsWithFileInfos. by rewrite getDirentsFrom_direntOf. }
  assert (Exists (λ fi, unsupported fi = true) fis →
          getDirentsWithFileInfos fis = Panicked "unsupported dirent type") as Hpanic.
  { intros Hex. apply getDirentsFrom_panics. by apply Exists_exists in Hex. }
  split_and!.
  - split; [done|]. intros Heq. destruct Hcases as [|Hex]; [done|].
    apply Hpanic in Hex. congruence.
  - split; [done|]. intros Heq. destruct Hcases as [Hall|]; [|done].
    apply Hret in Hall. congruence.
  - destruct Hcases; [left|right]; auto.
Qed.

(** X15. When the read and the close of [Handle.ReadDirAll] succeed, the
    Handle holds what the re-open returned: the new file, or the [nil] file
    when the re-open failed; its re-opener and its forgetter are kept, no
    other Handle, no Node and nothing of the overlay's own state changes.
    When the re-open succeeded and every entry is a directory or a regular
    file, the entries are returned with no error.  When the re-open
    failed, the method does not return its error: the deferred log panics
    on the [nil] file. *)
Theorem ReadDirAll_reopens st h fis w1 w2 ores st3 :
  File_Readdir (h_f (hstore st h)) (world st) = ((fis, None), w1) →
  File_Close (h_f (hstore st h)) w1 = (None, w2) →
  reopen (h_reopener (hstore st h)) (set_world w2 st) = (ores, st3) →
  let st' := (Handle_ReadDirAll h st).2 in
  hstore st' h = mkHandle (h_reopener (hstore st h)) (h_forgetter (hstore st h))
                          (match ores with inl _ => nilFile | inr f => f end) ∧
  (∀ h', h' ≠ h → hstore st' h' = hstore st h') ∧
  nstore st' = nstore st ∧ fs st' = fs st ∧ world st' = world st3 ∧
  (∀ f, ores = inr f → Forall (λ fi, unsupported fi = false) fis →
        (Handle_ReadDirAll h st).1 = Returned (direntOf <$> fis, None)) ∧
  (∀ e, ores = inl e → (Handle_ReadDirAll h st).1 = Panicked nilDereference).
Proof.
  intros Hread Hclose Hopen. cbv zeta.
  assert (hstore st3 = hstore st ∧ nstore st3 = nstore st ∧ fs st3 = fs st)
    as (Hh & Hn & Hf).
  { unfold reopen in Hopen. by repeat case_match; simplify_eq. }
  set (hd := mkHandle (h_reopener (hstore st h)) (h_forgetter (hstore st h))
                      (match ores with inl _ => nilFile | inr f => f end)).
  assert (Handle_ReadDirAll h st =
          (logName (h_f hd)
             match ores with
             | inl e => Returned ([], Some (translate e))
             | inr _ =>
               match getDirentsWithFileInfos fis with
               | Panicked msg => Panicked msg
               | Returned dirs => Returned (dirs, None)
               end
             end,
           set_hstore (<[h := hd]>) st3)) as ->.
  { unfold Handle_ReadDirAll. cbv zeta. rewrite Hread.
    unfold onWorld. cbn [world set_world hstore]. rewrite Hclose.
    change (reopen (h_reopener (hstore (set_world w2 (set_world w1 st)) h))
                   (set_world w2 (set_world w1 st)))
      with (reopen (h_reopener (hstore st h)) (set_world w2 st)).
    rewrite Hopen. subst hd. rewrite Hh.
    destruct ores as [e|f].
    - cbn [set_hstore hstore]. by rewrite fn_lookup_insert.
    - destruct (getDirentsWithFileInfos fis);
        cbn [set_hstore hstore]; by rewrite fn_lookup_insert. }
  cbn [fst snd]. split_and!.
  - simpl. by rewrite fn_lookup_insert.
  - intros h' Hne. simpl. by rewrite fn_lookup_insert_ne, Hh.
  - done.
  - done.
  - done.
  - intros f -> Hall. apply reopen_inr in Hopen as (Hnil & _).
    subst hd. cbn [h_f]. rewrite logName_not_nil by done.
    unfold getDirentsWithFileInfos. by rewrite getDirentsFrom_direntOf.
  - intros e ->. subst hd. cbn [h_f]. apply logName_nil.
Qed.

End ReadDirMore.

(** ** Setattr and Attr *)

Section SetattrAttr.
Context `{U : Underlying}.
Implicit Types (st : State) (n m h : nat).

Lemma bind_inr {A B} (m : Try A) (k : A → Try B) (w w' : World) (b : B) :
  bind m k w = (inr b, w') → ∃ a w1, m w = (inr a, w1) ∧ k a w1 = (inr b, w').
Proof.
  unfold bind. destruct (m w) as [[e|a] w1]; [done|]. intros H. by exists a, w1.
Qed.

Lemma stat_inr (p : string) (w w' : World) (fi : FileInfo) :
  stat p w = (inr fi, w') → os_Stat p w = inr fi ∧ w' = w.
Proof. unfold stat. destruct (os_Stat p w); by intros [= -> ->]. Qed.

(** A successful [Setattr] ends with a [Stat] of the path that succeeded,
    and answers with the attributes filled from it. *)
Lemma setattrCalls_inr (p : string) (req : SetattrRequest) (attr a : Attr) (w w' : World) :
  setattrCalls p req attr w = (inr a, w') →
  ∃ fi, os_Stat p w' = inr fi ∧ a = fillAttrWithFileInfo attr fi.
Proof.
  unfold setattrCalls, mbind, Try_bind, mret, Try_ret. intros H.
  repeat (apply bind_inr in H as (? & ? & ? & H)).
  unfold ret in H. simplify_eq.
  match goal with Hs : stat p _ = (inr ?fi, w') |- _ =>
    apply stat_inr in Hs as [Hs ?]; subst; by exists fi end.
Qed.

(** X16. The attributes a successful [Node.Setattr] answers with are those
    [Node.Attr] gives right after it, filled into the same [fuse.Attr]; a
    failed [Setattr] gives its [fuse.Attr] back untouched; and the path of
    the Node is the same before and after. *)
Theorem Setattr_then_Attr st n req attr :
  let r := Node_Setattr n req attr st in
  (r.1.1 = None → Node_Attr n attr r.2 = (None, r.1.2)) ∧
  (r.1.1 ≠ None → r.1.2 = attr) ∧
  getRealPath n r.2 = getRealPath n st.
Proof.
  cbv zeta. unfold Node_Setattr.
  destruct (setattrCalls _ req attr (world st)) as [[e|a] w] eqn:Hc; simpl.
  - done.
  - split_and!; [|done|done]. intros _.
    apply setattrCalls_inr in Hc as (fi & Hs & ->).
    unfold Node_Attr.
    change (getRealPath n (set_world w st)) with (getRealPath n st).
    change (world (set_world w st)) with w. by rewrite Hs.
Qed.

End SetattrAttr.

(** ** The flags of an open request *)

Section OpenFlags.

Lemma bits_subset_lor_l (a b : Z) : bits_subset a (Z.lor a b).
Proof. intros i _ H. rewrite Z.lor_spec, H. done. Qed.

Lemma bits_subset_lor_mono (a b c : Z) : bits_subset a b → bits_subset a (Z.lor b c).
Proof. intros H i Hi Ha. rewrite Z.lor_spec, (H i Hi Ha). done. Qed.

(** X17. [fuseOpenFlagsToOSFlagsAndPerms] never sets a permission bit: the
    mode it returns is made of the append, directory and exclusive bits
    only, and is zero exactly when none of the three flags is in the
    request.  The flags it returns hold the access mode of the request and,
    beyond it, nothing but [O_CREATE], [O_SYNC] and [O_TRUNC]. *)
Theorem fuseOpenFlags_bits (c : OpenConsts) (f : Z) :
  let flag := (fuseOpenFlagsToOSFlagsAndPerms c f).1 in
  let perm := (fuseOpenFlagsToOSFlagsAndPerms c f).2 in
  Z.land perm 511 = 0%Z ∧
  Z.land perm (Z.lor ModeAppend (Z.lor ModeDir ModeExclusive)) = perm ∧
  (perm = 0%Z ↔ Z.land f (OpenAppend c) = 0%Z ∧ Z.land f (OpenDirectory c) = 0%Z ∧
                Z.land f (OpenExclusive c) = 0%Z) ∧
  bits_subset (Z.land f (OpenAccessModeMask c)) flag ∧
  bits_subset flag (Z.lor (Z.land f (OpenAccessModeMask c))
                          (Z.lor (O_CREATE c) (Z.lor (O_SYNC c) (O_TRUNC c)))).
Proof.
  cbv zeta. unfold fuseOpenFlagsToOSFlagsAndPerms. cbn [fst snd].
  split_and!.
  - by destruct (Z.land f (OpenAppend c) =? 0)%Z, (Z.land f (OpenDirectory c) =? 0)%Z,
         (Z.land f (OpenExclusive c) =? 0)%Z.
  - by destruct (Z.land f (OpenAppend c) =? 0)%Z, (Z.land f (OpenDirectory c) =? 0)%Z,
         (Z.land f (OpenExclusive c) =? 0)%Z.
  - destruct (Z.eqb_spec (Z.land f (OpenAppend c)) 0),
      (Z.eqb_spec (Z.land f (OpenDirectory c)) 0),
      (Z.eqb_spec (Z.land f (OpenExclusive c)) 0); simpl; (split; [try done|tauto]).
  - destruct (Z.land f (OpenCreate c) =? 0)%Z, (Z.land f (OpenSync c) =? 0)%Z,
      (Z.land f (OpenTruncate c) =? 0)%Z; simpl;
      repeat apply bits_subset_lor_mono; by intros i _ H.
  - intros i Hi. rewrite !Z.lor_spec.
    destruct (Z.land f (OpenCreate c) =? 0)%Z, (Z.land f (OpenSync c) =? 0)%Z,
      (Z.land f (OpenTruncate c) =? 0)%Z; simpl; rewrite ?Z.lor_spec;
      destruct (Z.testbit (Z.land f (OpenAccessModeMask c)) i),
        (Z.testbit (O_CREATE c) i), (Z.testbit (O_SYNC c) i), (Z.testbit (O_TRUNC c) i);
      done.
Qed.

End OpenFlags.

(** ** Listing after a write *)

Section ListAfterSet.
Context `{U : Underlying}.
Implicit Types (st : State) (n m h : nat).

(** X18. With in-memory attributes enabled, after [Setxattr] of [name] a
    complete listing through any Node with the same path returns, in sorted
    order and without repetition, the names that were stored before
    together with [name], whatever the iteration order of the map. *)
Theorem Setxattr_Listxattr st n name v :
  inMemoryXattr (fs st) = true →
  let st1 := (Node_Setxattr n name v st).2 in
  let l := sortedNames (<[name := v]> (attrsAt (getRealPath n st) st)) in
  (∀ m seeds, getRealPath m st = getRealPath n st →
     Node_Listxattr seeds m (mkListxattrRequest 0 0) [] st1 = (None, l)) ∧
  StronglySorted String.le l ∧ NoDup l ∧
  (∀ k, k ∈ l ↔ k = name ∨ is_Some (attrsAt (getRealPath n st) st !! k)).
Proof.
  intros Hflag. cbv zeta.
  assert (inMemoryXattr (fs (Node_Setxattr n name v st).2) = true ∧
          nstore (Node_Setxattr n name v st).2 = nstore st) as [Hflag' Hs].
  { unfold Node_Setxattr. rewrite Hflag. done. }
  destruct (sortedNames_spec (<[name := v]> (attrsAt (getRealPath n st) st)))
    as (Hsorted & Hnodup & Hin).
  split_and!; [|done|done|].
  - intros m seeds Hm.
    rewrite (Listxattr_one _ m (<[name := v]> (attrsAt (getRealPath n st) st))).
    + by rewrite drop_0, limit_all by by left.
    + done.
    + unfold getRealPath at 1. rewrite Hs. fold (getRealPath m st).
      rewrite Setxattr_xattrsAt by done. by rewrite Hm, decide_True.
  - intros k. rewrite Hin. destruct (decide (k = name)) as [->|Hne].
    + rewrite lookup_insert_eq. split; [by left|by eexists].
    + rewrite lookup_insert_ne by done. split; [by right|by intros [|]].
Qed.

End ListAfterSet.

(** ** Create, Mkdir and Root *)

Section Creation.
Context `{U : Underlying}.
Implicit Types (st : State) (n m h : nat).

Lemma newNode_fresh_bucket (nd : Node) st k :
  bucket (nodes (fs (newNode (nnext st) (allocNode nd st).2))) k =
  if decide (k = realPath nd) then bucket (nodes (fs st)) (realPath nd) ++ [nnext st]
  else bucket (nodes (fs st)) k.
Proof.
  unfold newNode, getRealPath. simpl. rewrite fn_lookup_insert.
  rewrite bucket_insert. by destruct (decide _) as [->|].
Qed.

(** X19. A successful [Node.Create] returns a Node and a Handle that were
    not allocated before.  The Node has the joined path, is a directory
    when the requested mode says so, owns the Handle, and is appended to
    the bucket of its path; the Handle holds the opened file and re-opens
    that joined path.  When the path is then renamed, the Node reports the
    new path while the Handle still re-opens the old one. *)
Theorem Create_registers st n name flags mode f w :
  os_OpenFile (filepath_Join (getRealPath n st) name) flags mode (world st) = (inr f, w) →
  let p := filepath_Join (getRealPath n st) name in
  let r := Node_Create n name flags mode st in
  r.1 = inr (nnext st, hnext st) ∧
  nstore r.2 (nnext st) = mkNode p (FileMode_IsDir mode) (Some (<[hnext st := true]> ∅)) ∧
  hstore r.2 (hnext st) = mkHandle (ReopenName p flags mode) (Some (nnext st)) f ∧
  (∀ m, m ≠ nnext st → nstore r.2 m = nstore st m) ∧
  (∀ k, bucket (nodes (fs r.2)) k =
        if decide (k = p) then bucket (nodes (fs st)) p ++ [nnext st]
        else bucket (nodes (fs st)) k) ∧
  world r.2 = w ∧
  (∀ np, np ≠ p →
     getRealPath (nnext st) (migrate p np r.2) = np ∧
     reopen (h_reopener (hstore (migrate p np r.2) (hnext st))) (migrate p np r.2) =
     ((os_OpenFile p flags mode w).1,
      set_world (os_OpenFile p flags mode w).2 (migrate p np r.2))).
Proof.
  intros Hopen. cbv zeta.
  set (p := filepath_Join (getRealPath n st) name) in *.
  set (r := Node_Create n name flags mode st).
  assert (r = (inr (nnext st, hnext st),
               newNode (nnext st)
                 (set_hstore (<[hnext st := mkHandle (ReopenName p flags mode)
                                                     (Some (nnext st)) f]>)
                    (rememberHandle (nnext st) (hnext st)
                       (allocNode (mkNode p (FileMode_IsDir mode) None)
                          (allocHandle (mkHandle (ReopenName p flags mode) None f)
                             (set_world w st)).2).2)))) as Hr.
  { subst r. unfold Node_Create, reopen. fold p. cbn [getRealPath]. by rewrite Hopen. }
  rewrite Hr. cbn [fst snd].
  assert (∀ k, bucket (nodes (fs (newNode (nnext st)
                 (set_hstore (<[hnext st := mkHandle (ReopenName p flags mode)
                                                     (Some (nnext st)) f]>)
                    (rememberHandle (nnext st) (hnext st)
                       (allocNode (mkNode p (FileMode_IsDir mode) None)
                          (allocHandle (mkHandle (ReopenName p flags mode) None f)
                             (set_world w st)).2).2))))) k =
        if decide (k = p) then bucket (nodes (fs st)) p ++ [nnext st]
        else bucket (nodes (fs st)) k) as Hb.
  { intros k. unfold newNode, getRealPath. simpl. rewrite !fn_lookup_insert. simpl.
    rewrite bucket_insert. by destruct (decide _) as [->|]. }
  split_and!.
  - done.
  - simpl. by rewrite !fn_lookup_insert.
  - simpl. by rewrite fn_lookup_insert.
  - intros m Hm. simpl. by rewrite !fn_lookup_insert_ne.
  - done.
  - done.
  - intros np Hnp.
    match goal with |- context [migrate p np ?s] => set (st1 := s) in * end.
    assert (hstore (migrate p np st1) = hstore st1 ∧ world (migrate p np st1) = w)
      as [Hh Hw].
    { unfold migrate.
      destruct (nodeRenamed_frame p np (moveAllxattrs p np st1))
        as (_ & _ & _ & _ & _ & -> & _ & ->).
      unfold moveAllxattrs. by case_match. }
    split.
    + unfold getRealPath. rewrite migrate_node, migrate_bucket.
      rewrite (decide_False (P := np = p)) by done.
      rewrite (decide_True (P := np = np)) by done.
      rewrite decide_True; [done|].
      rewrite (Hb p), decide_True by done.
      apply elem_of_app. right. apply elem_of_app. right. by left.
    + rewrite Hh.
      assert (hstore st1 (hnext st) =
              mkHandle (ReopenName p flags mode) (Some (nnext st)) f) as ->
        by (subst st1; simpl; by rewrite fn_lookup_insert).
      cbn [h_reopener]. unfold reopen. rewrite Hw.
      by destruct (os_OpenFile p flags mode w).
Qed.

(** X20. [Root] and a successful [Mkdir] each return a Node that was not
    allocated before, marked as a directory whatever the requested mode,
    with no Handle, appended to the bucket of its path: the root path for
    [Root], the joined path for [Mkdir].  Two calls of [Root] give two
    different Nodes in the same bucket. *)
Theorem Root_Mkdir_register st n name mode :
  adds_directory st (Root st).1 (rootPath (fs st)) (Root st).2 ∧
  (Root (Root st).2).1 = S (nnext st) ∧
  bucket (nodes (fs (Root (Root st).2).2)) (rootPath (fs st)) =
    bucket (nodes (fs st)) (rootPath (fs st)) ++ [nnext st; S (nnext st)] ∧
  (∀ w, os_Mkdir (filepath_Join (getRealPath n st) name) mode (world st) = (None, w) →
        ∃ nd, (Node_Mkdir n name mode st).1 = inr nd ∧
              adds_directory st nd (filepath_Join (getRealPath n st) name)
                             (Node_Mkdir n name mode st).2 ∧
              world (Node_Mkdir n name mode st).2 = w).
Proof.
  refine (conj _ (conj _ (conj _ _))).
  - refine (conj _ (conj _ (conj _ _))); [done| | |].
    + simpl. by rewrite fn_lookup_insert.
    + intros m Hm. simpl. by rewrite fn_lookup_insert_ne.
    + intros k. apply (newNode_fresh_bucket (mkNode (rootPath (fs st)) true None) st k).
  - done.
  - unfold Root. cbn [fst snd].
    unfold newNode, getRealPath. simpl. rewrite !fn_lookup_insert. simpl.
    rewrite !bucket_insert, !decide_True by done. by rewrite <- app_assoc.
  - intros w Hm. exists (nnext st). unfold Node_Mkdir, onWorld. rewrite Hm.
    cbn [fst snd]. refine (conj _ (conj (conj _ (conj _ (conj _ _))) _)); try done.
    + simpl. by rewrite fn_lookup_insert.
    + intros m Hne. simpl. by rewrite fn_lookup_insert_ne.
    + intros k.
      apply (newNode_fresh_bucket (mkNode (filepath_Join (getRealPath n st) name) true None)
                                  (set_world w st) k).
Qed.

End Creation.

(** ** Re-opening after a rename *)

Section Reopen.
Context `{U : Underlying}.
Implicit Types (st : State) (n m h : nat).

(** X21. The Handle of a successful [Node.Open] re-opens the path the Node
    has at the time of the re-open: once the path of a registered Node was
    renamed, the re-open, as [ReadDirAll] does it, opens the new path with
    the flags and the mode of the first open. *)
Theorem Open_reopens_current_path st n flags perm h st1 np :
  Node_Open n flags perm st = (inr h, st1) →
  registered n (getRealPath n st) st →
  np ≠ getRealPath n st →
  let st2 := migrate (getRealPath n st) np st1 in
  getRealPath n st2 = np ∧
  reopen (h_reopener (hstore st2 h)) st2 =
  ((os_OpenFile np flags perm (world st1)).1,
   set_world (os_OpenFile np flags perm (world st1)).2 st2).
Proof.
  intros Hopen Hreg Hnp st2.
  destruct (Node_Open_success _ _ _ _ _ _ Hopen) as (f & st0 & Hre & -> & Hh & _ & _).
  assert (same_registry st st1) as Hsame.
  { replace st1 with (callStep st (COpen n flags perm)) by (simpl; by rewrite Hopen).
    by apply callStep_same_registry. }
  destruct Hsame as (Hnodes & _).
  assert (hstore st2 = hstore st1 ∧ world st2 = world st1) as [Hh2 Hw2].
  { subst st2. unfold migrate.
    destruct (nodeRenamed_frame (getRealPath n st) np (moveAllxattrs (getRealPath n st) np st1))
      as (_ & _ & _ & _ & _ & -> & _ & ->).
    unfold moveAllxattrs. by case_match. }
  assert (getRealPath n st2 = np) as Hp.
  { subst st2. unfold getRealPath at 1. rewrite migrate_node, migrate_bucket.
    rewrite (decide_False (P := np = getRealPath n st)) by done.
    rewrite (decide_True (P := np = np)) by done.
    rewrite decide_True; [done|]. rewrite Hnodes.
    apply elem_of_app. by right. }
  split; [done|].
  rewrite Hh2, Hh. cbn [h_reopener]. unfold reopen. rewrite Hp, Hw2.
  by destruct (os_OpenFile np flags perm (world st1)).
Qed.

End Reopen.

(** ** The further properties on the in-memory file system *)

Section FurtherOnMemFS.
Import MemFS.

(** Node [3] was registered under [b] and forgotten: registering it again
    and forgetting it gives back the buckets without it. *)
Lemma newNode_forgetNode_witness :
  (∀ k, bucket (nodes (fs (forgetNode 3 (newNode 3 st_forgot_b)))) k =
        bucket (nodes (fs st_forgot_b)) k) ∧
  nstore (forgetNode 3 (newNode 3 st_forgot_b)) = nstore st_forgot_b.
Proof.
  apply (newNode_forgetNode st_forgot_b 3).
  unfold registered.
  assert (bucket (nodes (fs st_forgot_b)) (getRealPath 3 st_forgot_b) = []) as ->
    by (vm_compute; reflexivity).
  apply not_elem_of_nil.
Defined.

(** [a], with its two Nodes and the attribute [user.k], is renamed to the
    free path [c] and back. *)
Lemma migrate_there_and_back_witness :
  let st' := migrate "c" "a" (migrate "a" "c" st_attr_a) in
  (∀ k, bucket (nodes (fs st')) k = bucket (nodes (fs st_attr_a)) k) ∧
  (∀ m, nstore st' m = nstore st_attr_a m) ∧
  (∀ p, xattrsAt p (fs st') = xattrsAt p (fs st_attr_a)).
Proof.
  apply (migrate_there_and_back st_attr_a "a" "c").
  - discriminate.
  - discriminate.
  - discriminate.
  - apply (registry_ok_run _ (initX 0 w0)), registry_ok_initX.
  - vm_compute. reflexivity.
  - apply from_option_false. vm_compute. reflexivity.
Defined.

(** [user.j] is set through Node [2] of [a] and read through Node [1]. *)
Lemma Setxattr_Getxattr_witness :
  let r := Node_Setxattr 2 "user.j" value2 st_attr_a in
  r.1 = None ∧
  (∀ m, getRealPath m st_attr_a = getRealPath 2 st_attr_a →
        Node_Getxattr m "user.j" r.2 = inr value2) ∧
  (∀ m name', getRealPath m st_attr_a ≠ getRealPath 2 st_attr_a ∨ name' ≠ "user.j" →
        Node_Getxattr m name' r.2 = Node_Getxattr m name' st_attr_a) ∧
  nodes (fs r.2) = nodes (fs st_attr_a) ∧
  nstore r.2 = nstore st_attr_a ∧
  world r.2 = world st_attr_a.
Proof.
  apply (Setxattr_Getxattr st_attr_a 2 "user.j" value2).
  vm_compute. reflexivity.
Defined.

(** [user.k] of [a] is removed through Node [1]. *)
Lemma Removexattr_Getxattr_witness :
  let r := Node_Removexattr 1 "user.k" st_attr_a in
  (r.1 = None ↔ ∃ v, Node_Getxattr 1 "user.k" st_attr_a = inr v) ∧
  (Node_Getxattr 1 "user.k" st_attr_a = inl ENODATA → r = (Some ENODATA, st_attr_a)) ∧
  (r.1 = None →
     (∀ m, getRealPath m st_attr_a = getRealPath 1 st_attr_a →
           Node_Getxattr m "user.k" r.2 = inl ENODATA) ∧
     (∀ m name', getRealPath m st_attr_a ≠ getRealPath 1 st_attr_a ∨ name' ≠ "user.k" →
           Node_Getxattr m name' r.2 = Node_Getxattr m name' st_attr_a)).
Proof.
  apply (Removexattr_Getxattr st_attr_a 1 "user.k").
  vm_compute. reflexivity.
Defined.

(** On that state: the attribute is there before, gone after, through both
    Nodes of [a]; removing it again fails. *)
Lemma Removexattr_example :
  let r := Node_Removexattr 1 "user.k" st_attr_a in
  Node_Getxattr 2 "user.k" st_attr_a = inr value1 ∧
  r.1 = None ∧
  Node_Getxattr 1 "user.k" r.2 = inl ENODATA ∧
  Node_Getxattr 2 "user.k" r.2 = inl ENODATA ∧
  (Node_Removexattr 2 "user.k" r.2).1 = Some ENODATA.
Proof. repeat split; vm_compute; reflexivity. Qed.


(** On that state, whatever the iteration order. *)
Lemma Open_Release_example :
  let st1 := (Node_Open 4 0 0 st_lookups).2 in
  map_to_list (handlesOf 4 st_lookups) = [] ∧
  map_to_list (handlesOf 4 st1) = [(0, true)] ∧
  (Node_Fsync [2] 4 st_lookups).1 = Some EIO ∧
  (Node_Fsync [2] 4 st1).1 = None ∧
  (Handle_Flush 0 st1).1 = Returned None ∧
  (Handle_Release 0 st1).1 = Returned None ∧
  map_to_list (handlesOf 4 (Handle_Release 0 st1).2) = [] ∧
  (Node_Fsync [2] 4 (Handle_Release 0 st1).2).1 = Some EIO.
Proof. repeat split; vm_compute; reflexivity. Qed.

(** Listing [d], which holds the regular file [d/f] only, through Handle
    [0]: the entry is returned and the Handle holds the descriptor of the
    re-open. *)
Lemma ReadDirAll_reopens_witness :
  (Handle_ReadDirAll 0 st_open_d_plain).1 = Returned ([mkDirent 5 "f" DT_File], None) ∧
  h_f (hstore st_open_d_plain 0) = Some 0 ∧
  h_f (hstore (Handle_ReadDirAll 0 st_open_d_plain).2 0) = Some 1.
Proof.
  set (st := st_open_d_plain).
  pose (f := h_f (hstore st 0)).
  destruct (ReadDirAll_reopens st 0
              (File_Readdir f (world st)).1.1
              (File_Readdir f (world st)).2
              (File_Close f (File_Readdir f (world st)).2).2
              (inr (Some 1))
              (reopen (h_reopener (hstore st 0))
                 (set_world (File_Close f (File_Readdir f (world st)).2).2 st)).2)
    as (Hh & _ & _ & _ & _ & Hret & _).
  - apply triple_none_eq. vm_compute. reflexivity.
  - apply pair_fst_eq. vm_compute. reflexivity.
  - apply pair_fst_eq. vm_compute. reflexivity.
  - split_and!.
    + rewrite (Hret (Some 1) eq_refl).
      * vm_compute. reflexivity.
      * assert ((File_Readdir f (world st)).1.1 = [file "f" 384 8 5]) as ->
          by (vm_compute; reflexivity).
        constructor; [vm_compute; reflexivity|constructor].
    + vm_compute. reflexivity.
    + rewrite Hh. reflexivity.
Defined.

(** The same listing when [d] was renamed behind the overlay after the
    open: the re-open fails, the method panics and leaves the Handle with
    the [nil] file, on which the next listing and the release panic too. *)
Lemma ReadDirAll_reopen_failure_example :
  let r := Handle_ReadDirAll 0 st_open_d_moved in
  h_f (hstore st_open_d_moved 0) = Some 0 ∧
  (reopen (h_reopener (hstore st_open_d_moved 0)) st_open_d_moved).1
    = inl (OsError NotExist 2) ∧
  r.1 = Panicked nilDereference ∧
  h_f (hstore r.2 0) = None ∧
  (Handle_ReadDirAll 0 r.2).1 = Panicked nilDereference ∧
  (Handle_Release 0 r.2).1 = Panicked nilDereference.
Proof. repeat split; vm_compute; reflexivity. Qed.

(** [user.j] is set through Node [2] of [a], which has [user.k]. *)
Lemma Setxattr_Listxattr_witness :
  let st1 := (Node_Setxattr 2 "user.j" value2 st_attr_a).2 in
  let l := sortedNames (<["user.j" := value2]> (attrsAt (getRealPath 2 st_attr_a) st_attr_a)) in
  (∀ m seeds, getRealPath m st_attr_a = getRealPath 2 st_attr_a →
     Node_Listxattr seeds m (mkListxattrRequest 0 0) [] st1 = (None, l)) ∧
  StronglySorted String.le l ∧ NoDup l ∧
  (∀ k, k ∈ l ↔ k = "user.j" ∨ is_Some (attrsAt (getRealPath 2 st_attr_a) st_attr_a !! k)).
Proof.
  apply (Setxattr_Listxattr st_attr_a 2 "user.j" value2).
  vm_compute. reflexivity.
Defined.

(** On that state, through the other Node of [a]. *)
Lemma Setxattr_Listxattr_example :
  let st1 := (Node_Setxattr 2 "user.j" value2 st_attr_a).2 in
  Node_Listxattr [] 1 (mkListxattrRequest 0 0) [] st_attr_a = (None, ["user.k"]) ∧
  Node_Listxattr [] 1 (mkListxattrRequest 0 0) [] st1 = (None, ["user.j"; "user.k"]) ∧
  Node_Listxattr [1] 1 (mkListxattrRequest 0 0) [] st1 = (None, ["user.j"; "user.k"]).
Proof. repeat split; vm_compute; reflexivity. Qed.

(** [Create] of the existing file [a] in the root directory: Node [6] and
    Handle [0]. *)
Lemma Create_registers_witness :
  let p := filepath_Join (getRealPath 0 st_lookups) "a" in
  let r := Node_Create 0 "a" 0 420 st_lookups in
  let w := (os_OpenFile p 0 420 (world st_lookups)).2 in
  r.1 = inr (nnext st_lookups, hnext st_lookups) ∧
  nstore r.2 (nnext st_lookups) =
    mkNode p (FileMode_IsDir 420) (Some (<[hnext st_lookups := true]> ∅)) ∧
  hstore r.2 (hnext st_lookups) =
    mkHandle (ReopenName p 0 420) (Some (nnext st_lookups)) (Some 0) ∧
  (∀ m, m ≠ nnext st_lookups → nstore r.2 m = nstore st_lookups m) ∧
  (∀ k, bucket (nodes (fs r.2)) k =
        if decide (k = p) then bucket (nodes (fs st_lookups)) p ++ [nnext st_lookups]
        else bucket (nodes (fs st_lookups)) k) ∧
  world r.2 = w ∧
  (∀ np, np ≠ p →
     getRealPath (nnext st_lookups) (migrate p np r.2) = np ∧
     reopen (h_reopener (hstore (migrate p np r.2) (hnext st_lookups))) (migrate p np r.2) =
     ((os_OpenFile p 0 420 w).1, set_world (os_OpenFile p 0 420 w).2 (migrate p np r.2))).
Proof.
  apply (Create_registers st_lookups 0 "a" 0 420 (Some 0)).
  apply pair_fst_eq. vm_compute. reflexivity.
Defined.

(** On that state, after [a] was renamed to [c] through the overlay: the
    created Node reports [c], and the re-open of its Handle fails, as [a]
    is gone. *)
Lemma Create_rename_example :
  let r := Node_Create 0 "a" 0 420 st_lookups in
  let st2 := (Node_Rename 0 (mkRenameRequest "a" "c") 0 r.2).2 in
  r.1 = inr (6, 0) ∧
  bucket (nodes (fs r.2)) "a" = [1; 2; 6] ∧
  getRealPath 6 st2 = "c" ∧
  bucket (nodes (fs st2)) "c" = [1; 2; 6] ∧
  (reopen (h_reopener (hstore st2 0)) st2).1 = inl (OsError NotExist 2).
Proof. repeat split; vm_compute; reflexivity. Qed.

(** [d] is opened through its Node [4] and then renamed to [e]. *)
Lemma Open_reopens_current_path_witness :
  let st1 := (Node_Open 4 0 0 st_lookups).2 in
  let st2 := migrate (getRealPath 4 st_lookups) "e" st1 in
  getRealPath 4 st2 = "e" ∧
  reopen (h_reopener (hstore st2 0)) st2 =
  ((os_OpenFile "e" 0 0 (world st1)).1,
   set_world (os_OpenFile "e" 0 0 (world st1)).2 st2).
Proof.
  apply (Open_reopens_current_path st_lookups 4 0 0 0 (Node_Open 4 0 0 st_lookups).2 "e").
  - apply pair_fst_eq. vm_compute. reflexivity.
  - unfold registered.
    assert (bucket (nodes (fs st_lookups)) (getRealPath 4 st_lookups) = [4]) as ->
      by (vm_compute; reflexivity).
    apply list_elem_of_here.
  - vm_compute. discriminate.
Defined.

(** On that state, with the rename done through the overlay.  The file
    opened before the rename still has the old name, under which the first
    listing finds no entry; it re-opens the new path, and the second
    listing returns the entry. *)
Lemma Open_rename_example :
  let st1 := (Node_Open 4 0 0 (run [inl (CRemove 4 "l")] st_lookups)).2 in
  let st2 := (Node_Rename 0 (mkRenameRequest "d" "e") 0 st1).2 in
  getRealPath 4 st2 = "e" ∧
  (Handle_ReadDirAll 0 st2).1 = Returned ([], None) ∧
  (Handle_ReadDirAll 0 (Handle_ReadDirAll 0 st2).2).1 =
    Returned ([mkDirent 5 "f" DT_File], None).
Proof. repeat split; vm_compute; reflexivity. Qed.

End FurtherOnMemFS.
